(** * webserv.py: a shallow embedding of the media server core

    The development follows [src/webserv.py]:
    - [normalize_root_and_rel]  (root index + relative path -> canonical path),
    - [api_list]                (the ordering applied to a directory listing),
    - [api_thumb]               (thumbnail generation over the in-memory cache),
    - [iter_file_range], [media] (HTTP Range streaming).

    Python integers are unbounded, so they are [Z].  A [str] is a [string]:
    for an HTTP header, which is decoded as latin-1, one character per code
    point; for a file name, the bytes of its UTF-8 encoding (splitting at
    ['/'] and prefix tests are the same on code points and on these bytes).
    [bytes] is [list byte], the [thumb_cache] dict is a [gmap string bytes].
    Everything the handlers ask of the operating system or of a library
    (realpath, stat, libmagic, Pillow, ffmpeg, mimetypes) is a field of an
    explicit environment record. *)

From Stdlib Require Import ZArith List Lia Bool Ascii String DecimalString.
From Stdlib Require Import Permutation Sorted.
From Stdlib Require OrdersEx DecimalPos DecimalZ DecimalFacts Nnat.
From stdpp Require Import gmap strings.
From Equations Require Import Equations.
Import ListNotations.

Local Open Scope Z_scope.

(* ===================================================================== *)
(** * Python built-ins used by the handlers *)
(* ===================================================================== *)

Module Py.

Definition bytes := list Byte.byte.

(** [str(n)] for an [int]: its decimal numeral.  CPython converts between
    [int] and [str] up to [sys.int_info.default_max_str_digits] decimal digits
    and raises ValueError beyond: [str_of_int n] is what [str(n)] and an
    f-string give when they return, and [str_returns n] tells that they do. *)
Definition str_of_int (n : Z) : string :=
  NilZero.string_of_int (Z.to_int n).

Definition MAX_STR_DIGITS : Z := 4300.

(** [len(s)] *)
Definition len (s : string) : Z := Z.of_nat (String.length s).

(** The numeral of [n] has at most [MAX_STR_DIGITS] digits, the sign apart:
    [n] is below [10 ^ MAX_STR_DIGITS] in absolute value. *)
Definition str_returns (n : Z) : bool :=
  len (str_of_int (Z.abs n)) <=? MAX_STR_DIGITS.

(** [a.startswith(b)] *)
Definition startswith (a b : string) : bool := String.prefix b a.

(** [not s] for a [str]: the empty string is falsy. *)
Definition falsy (s : string) : bool :=
  match s with EmptyString => true | _ => false end.

(** [s.split(sep)] for a one-character separator: every occurrence splits,
    empty fields are kept, and the empty string gives one empty field. *)
Fixpoint split (sep : ascii) (s : string) : list string :=
  match s with
  | EmptyString => [EmptyString]
  | String c r =>
      if Ascii.eqb c sep then EmptyString :: split sep r
      else match split sep r with
           | h :: t => String c h :: t
           | [] => [String c EmptyString]
           end
  end.

(** [sep.join(l)] *)
Fixpoint join (sep : string) (l : list string) : string :=
  match l with
  | [] => EmptyString
  | [x] => x
  | x :: r => x +:+ sep +:+ join sep r
  end.

(** [l[i]] on a list: a negative index counts from the end, and an index
    outside [-len(l), len(l)) raises IndexError ([None]). *)
Definition index {A} (l : list A) (i : Z) : option A :=
  let n := Z.of_nat (length l) in
  let j := if i <? 0 then i + n else i in
  if (0 <=? j) && (j <? n) then nth_error l (Z.to_nat j) else None.

(** ** [int(s)]

    CPython first maps the non-ASCII white space of the string to a blank
    (below 256 these are NEL, 0x85, and the no-break space, 0xA0; any other
    character above 126 makes the literal invalid), then reads: blanks, an
    optional sign, decimal digits with single underscores allowed between two
    digits, blanks, end of string.  A literal with more than
    [MAX_STR_DIGITS] digits, leading zeros counted and underscores not, is a
    ValueError as well. *)

Definition is_space (c : ascii) : bool :=
  let n := nat_of_ascii c in
  ((9 <=? n)%nat && (n <=? 13)%nat) || (n =? 32)%nat || (n =? 133)%nat || (n =? 160)%nat.

Definition digit_value (c : ascii) : option Z :=
  let n := nat_of_ascii c in
  if (48 <=? n)%nat && (n <=? 57)%nat then Some (Z.of_nat (n - 48)) else None.

Definition is_underscore (c : ascii) : bool := Ascii.eqb c "_"%char.

Fixpoint skip_spaces (s : string) : string :=
  match s with
  | String c r => if is_space c then skip_spaces r else s
  | EmptyString => EmptyString
  end.

(** The run of digits and underscores.  [prev_us] tells that the previous
    character was an underscore.  The result is the value and the unread
    rest; [None] is the ValueError of a doubled or trailing underscore. *)
Fixpoint scan_digits (s : string) (prev_us : bool) (acc : Z) : option (Z * string) :=
  match s with
  | EmptyString => if prev_us then None else Some (acc, EmptyString)
  | String c r =>
      match digit_value c with
      | Some d => scan_digits r false (10 * acc + d)
      | None =>
          if is_underscore c then
            if prev_us then None else scan_digits r true acc
          else if prev_us then None else Some (acc, s)
      end
  end.

(** The number of digits in the run of digits and underscores. *)
Fixpoint count_digits (s : string) : Z :=
  match s with
  | EmptyString => 0
  | String c r =>
      match digit_value c with
      | Some _ => 1 + count_digits r
      | None => if is_underscore c then count_digits r else 0
      end
  end.

Definition int_unsigned (s : string) : option Z :=
  match s with
  | EmptyString => None
  | String c _ =>
      match digit_value c with
      | None => None                      (* no digit, or a leading underscore *)
      | Some _ =>
          match scan_digits s false 0 with
          | Some (v, rest) =>
              if falsy (skip_spaces rest)
              then if count_digits s <=? MAX_STR_DIGITS then Some v else None
              else None
          | None => None
          end
      end
  end.

Definition int (s : string) : option Z :=
  match skip_spaces s with
  | String c r =>
      if Ascii.eqb c "+" then int_unsigned r
      else if Ascii.eqb c "-" then option_map Z.opp (int_unsigned r)
      else int_unsigned (String c r)
  | EmptyString => None
  end.

End Py.

(* ===================================================================== *)
(** * pathlib: pure POSIX paths *)
(* ===================================================================== *)

(** A [PurePosixPath]: the anchor is [""] (relative), ["/"] or ["//"] (POSIX
    keeps exactly two leading slashes apart), the parts are the components
    with empty ones and ["."] dropped. *)
Record Path := mkPath { anchor : string; parts : list string }.

Definition path_anchor (s : string) : string :=
  match s with
  | String "/" (String "/" (String "/" _)) => "/"
  | String "/" (String "/" _) => "//"
  | String "/" _ => "/"
  | _ => ""
  end.

Definition kept_part (x : string) : bool :=
  negb (String.eqb x "" || String.eqb x ".").

(** [Path(s)] *)
Definition parse_path (s : string) : Path :=
  mkPath (path_anchor s) (List.filter kept_part (Py.split "/" s)).

(** [str(p)] *)
Definition path_str (p : Path) : string :=
  match anchor p, parts p with
  | EmptyString, [] => "."
  | a, l => a +:+ Py.join "/" l
  end.

(** [p / rel]: an absolute right operand replaces the left one. *)
Definition joinpath (p : Path) (rel : string) : Path :=
  if Py.startswith rel "/" then parse_path rel
  else mkPath (anchor p) (parts p ++ parts (parse_path rel)).

(** [q.is_relative_to(p)]: containment at directory boundaries. *)
Fixpoint parts_prefix (l m : list string) : bool :=
  match l, m with
  | [], _ => true
  | x :: l', y :: m' => String.eqb x y && parts_prefix l' m'
  | _ :: _, [] => false
  end.

Definition is_relative_to (q p : Path) : bool :=
  String.eqb (anchor p) (anchor q) && parts_prefix (parts p) (parts q).

(* ===================================================================== *)
(** * The environment of a request *)
(* ===================================================================== *)

(** What the handlers obtain from outside the program, in a run in which
    every call returns.  A call that the source guards with [try]/[except]
    may raise, which is [None] here.  The calls it makes unguarded
    ([resolve], [exists], [is_file], [stat], [magic.from_file], [open]) have
    no such case: when one of them raises (a name that is too long, a NUL
    byte, a file that may not be read) the handler ends with that exception,
    and when the awaited child never ends the handler never resumes; such
    runs are not runs of this model, and a statement about a value of one of
    these fields is a statement about the runs in which the call returned
    that value. *)
Record Env := mkEnv {
  resolve : Path -> Path;                 (* Path.resolve() *)
  path_exists : Path -> bool;             (* p.exists() *)
  is_file : Path -> bool;                 (* p.is_file() *)
  st_size : Path -> Z;                    (* p.stat().st_size *)
  file_bytes : Path -> Py.bytes;          (* what open(p, 'rb') reads *)
  magic_from_file : string -> string;     (* magic.from_file(s, mime=True) *)
  guess_type : string -> option string;   (* mimetypes.guess_type(s)[0] *)
  image_thumbnail : Path -> option Py.bytes;
      (* Image.open(p); thumbnail; convert; save as JPEG; None: it raised *)
  ffmpeg_frame : string -> option Py.bytes;
      (* stdout of the ffmpeg child; None: spawning or communicating raised *)
  frame_thumbnail : Py.bytes -> option Py.bytes;
      (* Image.open(BytesIO(out)); thumbnail; convert; save; None: it raised *)
  placeholder : Py.bytes                  (* Image.new(...) saved as JPEG *)
}.

(** ** A file system without symbolic links

    There [resolve] is lexical: a relative path is taken from the working
    directory and every [".."] removes the component before it (the parent of
    the root is the root).  The result starts with a single ['/'], also for a
    path that starts with two. *)
Fixpoint collapse (seen_rev : list string) (todo : list string) : list string :=
  match todo with
  | [] => rev seen_rev
  | x :: r =>
      if String.eqb x ".." then collapse (tl seen_rev) r
      else collapse (x :: seen_rev) r
  end.

Definition resolve_lexical (cwd : Path) (p : Path) : Path :=
  let abs := if Py.falsy (anchor p) then parts cwd ++ parts p else parts p in
  mkPath "/" (collapse [] abs).

(* ===================================================================== *)
(** * Errors and responses *)
(* ===================================================================== *)

Record HTTPException := mkHTTPException {
  status_code : Z;
  detail : option string
}.

Inductive result (A : Type) : Type :=
| Ok (a : A)
| Raise (e : HTTPException).
Arguments Ok {A} a.
Arguments Raise {A} e.

Definition InvalidRoot : HTTPException := mkHTTPException 400 (Some "invalid root index").
Definition PathEscape : HTTPException := mkHTTPException 400 (Some "path outside root").
Definition NotFound : HTTPException := mkHTTPException 404 None.

(* ===================================================================== *)
(** * normalize_root_and_rel *)
(* ===================================================================== *)

Definition ROOT_DIRS : list string :=
  [ "/home/en6ineer/–ó–∞–≥—Ä—É–∑–∫–∏/inspiration";
    "/home/en6ineer/–ó–∞–≥—Ä—É–∑–∫–∏/gp2/gp2" ].

Definition normalize_root_and_rel (env : Env) (roots : list string)
    (root_index : Z) (rel_path : string) : result Path :=
  match Py.index roots root_index with
  | None => Raise InvalidRoot
  | Some r =>
      let root := parse_path r in
      let candidate := resolve env (joinpath root rel_path) in
      if negb (Py.startswith (path_str candidate) (path_str (resolve env root)))
      then Raise PathEscape
      else Ok candidate
  end.

(* ===================================================================== *)
(** * Responses *)
(* ===================================================================== *)

(** The body of a [Response] is its content; the body of a
    [StreamingResponse] is the sequence of chunks its generator yields, or
    [None] when the generator raises before the first chunk. *)
Inductive Body :=
| Content (b : Py.bytes)
| Streaming (chunks : option (list Py.bytes)).

Record Response := mkResponse {
  status : Z;
  media_type : option string;
  headers : list (string * string);
  body : Body
}.

(** All the bytes of a body, in order. *)
Definition body_bytes (b : Body) : option Py.bytes :=
  match b with
  | Content c => Some c
  | Streaming s => option_map (@List.concat _) s
  end.

Definition header (r : Response) (k : string) : option string :=
  option_map snd (List.find (fun kv => String.eqb (fst kv) k) (headers r)).

(* ===================================================================== *)
(** * api_list: the ordering of a listing *)
(* ===================================================================== *)

(** One dict of the list built by [list_dir]. *)
Record Entry := mkEntry {
  name : string;
  is_dir : bool;
  size : Z;
  mtime : Z;
  rel_path : string
}.

(** [l.sort(key=...)] is a stable sort: the result is ordered by key and
    entries with equal keys keep their relative order.  There is exactly one
    such arrangement of a list, and the insertion sort below computes it.
    With [reverse=True] the order of the keys is reversed and equal keys
    still keep their relative order, which is the same function at the
    converse comparison. *)
Section ListSort.
Context {A K : Type} (key : A -> K) (le : K -> K -> bool).

Fixpoint insert_by (x : A) (l : list A) : list A :=
  match l with
  | [] => [x]
  | y :: r => if le (key x) (key y) then x :: y :: r else y :: insert_by x r
  end.

Definition list_sort (l : list A) : list A := fold_right insert_by [] l.
End ListSort.

Definition DEFAULT_SORT : string := "name".

Section ApiList.
(** [str.lower], which is the same function for every listing. *)
Variable lower : string -> string.

(** The body of [api_list] after the call to [list_dir]; [sort] is the
    value of the query parameter. *)
Definition sort_items (sort : string) (items : list Entry) : list Entry :=
  if String.eqb sort "name" then
    list_sort (fun x => lower (name x)) String.leb items
  else if String.eqb sort "date" then
    list_sort mtime (fun a b => Z.leb b a) items
  else if String.eqb sort "size" then
    list_sort size (fun a b => Z.leb b a) items
  else items.

(** [sort_param] is the query parameter as sent: [None] when the request
    has none, and then [Query('name')] supplies the default. *)
Definition api_list_order (sort_param : option string) (items : list Entry)
    : list Entry :=
  sort_items (match sort_param with Some s => s | None => DEFAULT_SORT end) items.
End ApiList.

(** Lower-casing of the ASCII letters, for running the listing on examples. *)
Definition ascii_lower_char (c : ascii) : ascii :=
  let n := nat_of_ascii c in
  if (65 <=? n)%nat && (n <=? 90)%nat then ascii_of_nat (n + 32) else c.

Fixpoint ascii_lower (s : string) : string :=
  match s with
  | EmptyString => EmptyString
  | String c r => String (ascii_lower_char c) (ascii_lower r)
  end.

(* ===================================================================== *)
(** * api_thumb *)
(* ===================================================================== *)

(** The work a handler has done outside the interpreter, in order. *)
Inductive Event :=
| EvSniff (file : string)            (* magic.from_file *)
| EvImageDecode (p : Path)           (* Image.open(p) and the re-encoding *)
| EvSubprocess (file : string)       (* the ffmpeg child *)
| EvFrameDecode (out : Py.bytes)     (* Image.open(BytesIO(out)) and the re-encoding *)
| EvPlaceholder.                     (* Image.new and its encoding *)

(** The process state a handler reads and writes: the module-level
    [thumb_cache] and the trace of external work. *)
Record State := mkState {
  thumb_cache : gmap string Py.bytes;
  trace : list Event
}.

(** Handlers run in a state monad with exceptions; a raised exception keeps
    the writes made before it. *)
Definition M (A : Type) : Type := State -> result A * State.

Definition ret {A} (a : A) : M A := fun st => (Ok a, st).
Definition raise {A} (e : HTTPException) : M A := fun st => (Raise e, st).
Definition bind {A B} (m : M A) (k : A -> M B) : M B :=
  fun st => match m st with
            | (Ok a, st') => k a st'
            | (Raise e, st') => (Raise e, st')
            end.
Definition lift {A} (r : result A) : M A := fun st => (r, st).
Definition get_cache : M (gmap string Py.bytes) := fun st => (Ok (thumb_cache st), st).
Definition cache_store (k : string) (v : Py.bytes) : M unit :=
  fun st => (Ok tt, mkState (<[k := v]> (thumb_cache st)) (trace st)).
Definition emit (e : Event) : M unit :=
  fun st => (Ok tt, mkState (thumb_cache st) (trace st ++ [e])).

Notation "'let*' x := c 'in' k" := (bind c (fun x => k))
  (at level 10, x name, c at level 100, k at level 200).
Notation "c ;; k" := (bind c (fun _ => k))
  (at level 100, k at level 200, right associativity).

(** [not data] for [data] that is [None] or [bytes]. *)
Definition no_data (d : option Py.bytes) : bool :=
  match d with
  | None | Some [] => true
  | Some (_ :: _) => false
  end.

(** [f"{root_index}:{path}"] *)
Definition cache_key (root_index : Z) (path : string) : string :=
  Py.str_of_int root_index +:+ ":" +:+ path.

Definition jpeg_response (data : Py.bytes) : Response :=
  mkResponse 200 (Some "image/jpeg") [] (Content data).

(** [magic.from_file(str(p), mime=True) if p.is_file() else None] *)
Definition sniff (env : Env) (p : Path) : M (option string) :=
  if is_file env p then
    emit (EvSniff (path_str p)) ;; ret (Some (magic_from_file env (path_str p)))
  else ret None.

(** [p.is_file() and mime and mime.startswith('image')] *)
Definition is_image (env : Env) (p : Path) (mime : option string) : bool :=
  is_file env p &&
  match mime with
  | Some m => negb (Py.falsy m) && Py.startswith m "image"
  | None => false
  end.

(** The [try] block of the image branch. *)
Definition image_branch (env : Env) (p : Path) : M (option Py.bytes) :=
  emit (EvImageDecode p) ;; ret (image_thumbnail env p).

(** The [try] block of the video branch, from the output of the child on. *)
Definition frame_branch (env : Env) (out : option Py.bytes) : M (option Py.bytes) :=
  match out with
  | Some (b :: o) =>
      emit (EvFrameDecode (b :: o)) ;; ret (frame_thumbnail env (b :: o))
  | _ => ret None
  end.

Definition video_branch (env : Env) (p : Path) : M (option Py.bytes) :=
  emit (EvSubprocess (path_str p)) ;;
  frame_branch env (ffmpeg_frame env (path_str p)).

(** From [if not data:] to the end of the handler. *)
Definition finish_thumb (env : Env) (key : string) (data : option Py.bytes)
    : M Response :=
  let* data' := (if no_data data
            then emit EvPlaceholder ;; ret (placeholder env)
            else ret (match data with Some d => d | None => [] end)) in
  cache_store key data' ;;
  ret (jpeg_response data').

Definition api_thumb (env : Env) (roots : list string)
    (root_index : Z) (path : string) : M Response :=
  let key := cache_key root_index path in
  let* cache := get_cache in
  match cache !! key with
  | Some data => ret (jpeg_response data)
  | None =>
      let* p := lift (normalize_root_and_rel env roots root_index path) in
      if negb (path_exists env p) then raise NotFound
      else
        let* mime := sniff env p in
        let* data := (if is_image env p mime then image_branch env p
                 else video_branch env p) in
        finish_thumb env key data
  end.

(** What the generation steps compute for a resolved path, as a function of
    the environment: the value of [data] when [if not data:] is reached, and
    the bytes that are stored and returned. *)
Definition generated_data (env : Env) (p : Path) : option Py.bytes :=
  let mime := if is_file env p
              then Some (magic_from_file env (path_str p)) else None in
  if is_image env p mime then image_thumbnail env p
  else match ffmpeg_frame env (path_str p) with
       | Some (b :: o) => frame_thumbnail env (b :: o)
       | _ => None
       end.

Definition generated_thumb (env : Env) (p : Path) : Py.bytes :=
  match generated_data env p with
  | Some (b :: d) => b :: d
  | _ => placeholder env
  end.

(* ===================================================================== *)
(** * iter_file_range and media *)
(* ===================================================================== *)

(** [f.read(n)] on a regular file opened in binary mode, given what is left
    after the position: the bytes returned and what is left then.  A negative
    [n] reads to the end. *)
Definition read (rest : Py.bytes) (n : Z) : Py.bytes * Py.bytes :=
  if n <? 0 then (rest, [])
  else (firstn (Z.to_nat n) rest, skipn (Z.to_nat n) rest).

(** The [while to_read > 0] loop; the result is the chunks it yields. *)
Equations? read_loop (rest : Py.bytes) (chunk_size to_read : Z) : list Py.bytes
  by wf (Z.to_nat to_read) lt :=
  read_loop rest chunk_size to_read with Z_lt_dec 0 to_read := {
    | right _ := [];
    | left _ with read rest (Z.min chunk_size to_read) := {
        | ([], _) := [];
        | (b :: bs, rest') :=
            (b :: bs) :: read_loop rest' chunk_size
                           (to_read - Z.of_nat (length (b :: bs))) } }.
Proof. simpl length. lia. Qed.

Definition CHUNK_SIZE : Z := Z.shiftl 1 20.

(** The generator, on a file whose [stat] gives [fsize] and whose content,
    when it is opened, is [data].  [f.seek] raises on a negative offset.  It
    raises as well on an offset beyond what the file system takes, which
    is not modelled: the statements below take offsets up to the size of the
    file, as [media] does. *)
Definition iter_file_range_on (fsize : Z) (data : Py.bytes)
    (start : Z) (end_ : option Z) (chunk_size : Z) : option (list Py.bytes) :=
  let e := match end_ with
           | None => fsize - 1
           | Some e => if e >=? fsize then fsize - 1 else e
           end in
  if start <? 0 then None
  else
    let to_read := e - start + 1 in
    Some (read_loop (skipn (Z.to_nat start) data) chunk_size to_read).

Definition iter_file_range (env : Env) (path : Path)
    (start : Z) (end_ : option Z) (chunk_size : Z) : option (list Py.bytes) :=
  iter_file_range_on (st_size env path) (file_bytes env path) start end_ chunk_size.

(** The [try] block of [media] with its [except]: [start] and [end]. *)
Definition parse_range (range_header : string) (fsize : Z) : Z * Z :=
  let fallback := (0, fsize - 1) in
  match Py.split "=" range_header with
  | [units; rng] =>
      match Py.split "-" rng with
      | [start_s; end_s] =>
          match (if Py.falsy start_s then Some 0 else Py.int start_s) with
          | Some start =>
              match (if Py.falsy end_s then Some (fsize - 1) else Py.int end_s) with
              | Some e => (start, e)
              | None => fallback
              end
          | None => fallback
          end
      | _ => fallback
      end
  | _ => fallback
  end.

(** [mimetypes.guess_type(str(p))[0] or 'application/octet-stream'] *)
Definition mime_type_of (env : Env) (p : Path) : string :=
  match guess_type env (path_str p) with
  | Some m => if Py.falsy m then "application/octet-stream" else m
  | None => "application/octet-stream"
  end.

(** The [if range_header:] branch, from the parsed [start] and [end] on. *)
Definition range_response (env : Env) (p : Path) (fsize start e : Z) : Response :=
  if start >=? fsize then mkResponse 416 None [] (Content [])
  else
    mkResponse 206 (Some (mime_type_of env p))
      [ ("Content-Range",
         "bytes " +:+ Py.str_of_int start +:+ "-" +:+ Py.str_of_int e
                  +:+ "/" +:+ Py.str_of_int fsize);
        ("Accept-Ranges", "bytes");
        ("Content-Length", Py.str_of_int (e - start + 1)) ]
      (Streaming (iter_file_range env p start (Some e) CHUNK_SIZE)).

(** [range_header] is [request.headers.get('range')]. *)
Definition media (env : Env) (roots : list string) (root_index : Z)
    (full_path : string) (range_header : option string) : result Response :=
  match normalize_root_and_rel env roots root_index full_path with
  | Raise e => Raise e
  | Ok p =>
      if negb (path_exists env p) || negb (is_file env p) then Raise NotFound
      else
        let fsize := st_size env p in
        match range_header with
        | Some (String c h) =>
            let '(start, e) := parse_range (String c h) fsize in
            Ok (range_response env p fsize start e)
        | _ =>
            Ok (mkResponse 200 (Some (mime_type_of env p))
                  [("Accept-Ranges", "bytes")]
                  (Streaming (iter_file_range env p 0 (Some (fsize - 1)) CHUNK_SIZE)))
        end
  end.

(* ===================================================================== *)
(** * Concurrent api_thumb requests on the event loop *)
(* ===================================================================== *)

(** The handlers are coroutines of one asyncio loop: a handler runs alone
    from one [await] to the next, and the loop may run any other ready
    handler in between.  [api_thumb] awaits twice, both in the video branch:
    [await asyncio.create_subprocess_exec(...)], which has started the child
    when it suspends, and [await proc.communicate()].  A failure of either
    is delivered when the handler resumes from the second: a handler whose
    spawn fails at once can be overtaken here where the real one cannot, so
    the pool below has every interleaving of the program, and some more. *)
Inductive Task :=
| Pending                              (* the request has not run yet *)
| AwaitSpawn (p : Path)                (* suspended in create_subprocess_exec *)
| AwaitCommunicate (p : Path)          (* suspended in proc.communicate *)
| Finished (r : result Response).

Definition is_subprocess (e : Event) : bool :=
  match e with EvSubprocess _ => true | _ => false end.

Definition subprocess_count (tr : list Event) : nat :=
  length (List.filter is_subprocess tr).

Section Loop.
Variables (env : Env) (roots : list string) (root_index : Z) (path : string).

(** From the entry of the handler to its first [await], or to its end when
    it meets none. *)
Definition task_start (st : State) : Task * State :=
  let key := cache_key root_index path in
  match thumb_cache st !! key with
  | Some data => (Finished (Ok (jpeg_response data)), st)
  | None =>
      match normalize_root_and_rel env roots root_index path with
      | Raise e => (Finished (Raise e), st)
      | Ok p =>
          if negb (path_exists env p) then (Finished (Raise NotFound), st)
          else
            match sniff env p st with
            | (Ok mime, st1) =>
                if is_image env p mime then
                  let '(r, st2) :=
                    (let* data := image_branch env p in
                     finish_thumb env key data) st1 in
                  (Finished r, st2)
                else
                  let '(_, st2) := emit (EvSubprocess (path_str p)) st1 in
                  (AwaitSpawn p, st2)
            | (Raise e, st1) => (Finished (Raise e), st1)
            end
      end
  end.

(** From the second [await] to the end of the handler. *)
Definition task_finish (p : Path) (st : State) : Task * State :=
  let '(r, st') :=
    (let* data := frame_branch env (ffmpeg_frame env (path_str p)) in
     finish_thumb env (cache_key root_index path) data) st in
  (Finished r, st').

Definition task_step (t : Task) (st : State) : Task * State :=
  match t with
  | Pending => task_start st
  | AwaitSpawn p => (AwaitCommunicate p, st)
  | AwaitCommunicate p => task_finish p st
  | Finished r => (Finished r, st)
  end.

(** The loop resumes task [i] of the pool. *)
Definition loop_step (sys : list Task * State) (i : nat) : list Task * State :=
  match fst sys !! i with
  | Some t =>
      let '(t', st') := task_step t (snd sys) in
      (<[i := t']> (fst sys), st')
  | None => sys
  end.

(** A schedule is the order in which the loop resumes the tasks. *)
Definition run_loop (sched : list nat) (sys : list Task * State)
    : list Task * State :=
  fold_left loop_step sched sys.

(** [n] requests for the same key, none of which has run. *)
Definition concurrent_requests (n : nat) (st : State) : list Task * State :=
  (replicate n Pending, st).
End Loop.

(** ** What holds of the pool at every moment *)

Section LoopInvariant.
Variables (env : Env) (roots : list string) (root_index : Z) (path : string).

(** The answer to a request for the key that finds no entry for it. *)
Definition solo_result : result Response :=
  match normalize_root_and_rel env roots root_index path with
  | Raise e => Raise e
  | Ok p =>
      if path_exists env p
      then Ok (jpeg_response (generated_thumb env p))
      else Raise NotFound
  end.

(** A suspended task holds the resolved path of the key, which exists and
    was not sniffed as an image; a finished task holds [solo_result]. *)
Definition task_ok (t : Task) : Prop :=
  match t with
  | Pending => True
  | AwaitSpawn p | AwaitCommunicate p =>
      normalize_root_and_rel env roots root_index path = Ok p
      /\ path_exists env p = true
      /\ is_image env p (if is_file env p
                         then Some (magic_from_file env (path_str p))
                         else None) = false
  | Finished r => r = solo_result
  end.

(** An entry for the key holds the bytes of [solo_result]. *)
Definition cache_ok (st : State) : Prop :=
  match thumb_cache st !! cache_key root_index path with
  | None => True
  | Some d => Ok (jpeg_response d) = solo_result
  end.

Definition is_pending (t : Task) : bool :=
  match t with Pending => true | _ => false end.

Definition pending_count (tasks : list Task) : nat :=
  length (List.filter is_pending tasks).

(** [budget] bounds the children started so far plus the requests that may
    still start one. *)
Definition loop_inv (budget : nat) (sys : list Task * State) : Prop :=
  Forall task_ok (fst sys)
  /\ cache_ok (snd sys)
  /\ (subprocess_count (trace (snd sys)) + pending_count (fst sys) <= budget)%nat.
End LoopInvariant.

(* ===================================================================== *)
(** * A small concrete installation, to run the handlers on *)
(* ===================================================================== *)

Module Demo.

Definition roots : list string := ["/srv/media"].

(** A file of 1000 bytes whose byte [i] is [i mod 256]. *)
Definition nth_byte (i : nat) : Byte.byte :=
  match Byte.of_nat (i mod 256) with Some b => b | None => Byte.x00 end.

Definition clip : Py.bytes := List.map nth_byte (seq 0 1000).

Definition jpeg (tag : Byte.byte) : Py.bytes :=
  [Byte.xff; Byte.xd8; tag; Byte.xff; Byte.xd9].

Definition one_of (s : string) (l : list string) : bool :=
  existsb (String.eqb s) l.

Definition files : list string :=
  ["/srv/media/clip.mp4"; "/srv/media/photo.jpg"; "/srv/media/broken.jpg";
   "/srv/media/empty.bin"; "/srv/media2/secret.txt"].

Definition dirs : list string := ["/"; "/srv"; "/srv/media"; "/srv/media2"].

(** No symbolic links, working directory [/]. *)
Definition env : Env := {|
  resolve := resolve_lexical (mkPath "/" []);
  path_exists := fun p => one_of (path_str p) (files ++ dirs);
  is_file := fun p => one_of (path_str p) files;
  st_size := fun p =>
    if String.eqb (path_str p) "/srv/media/clip.mp4" then 1000 else 0;
  file_bytes := fun p =>
    if String.eqb (path_str p) "/srv/media/clip.mp4" then clip else [];
  magic_from_file := fun s =>
    if one_of s ["/srv/media/photo.jpg"; "/srv/media/broken.jpg"] then "image/jpeg"
    else if String.eqb s "/srv/media/clip.mp4" then "video/mp4"
    else "application/octet-stream";
  guess_type := fun s =>
    if String.eqb s "/srv/media/clip.mp4" then Some "video/mp4" else None;
  image_thumbnail := fun p =>
    if String.eqb (path_str p) "/srv/media/photo.jpg"
    then Some (jpeg Byte.x01) else None;
  ffmpeg_frame := fun s =>
    if String.eqb s "/srv/media/clip.mp4" then Some [Byte.x89; Byte.x50] else Some [];
  frame_thumbnail := fun out => Some (jpeg Byte.x02);
  placeholder := jpeg Byte.x00
|}.

Definition clip_path : Path := mkPath "/" ["srv"; "media"; "clip.mp4"].

Definition empty_state : State := mkState ∅ [].

(** A state in which a thumbnail is cached for a file that is gone. *)
Definition stale_state : State :=
  mkState {[ cache_key 0 "gone.jpg" := jpeg Byte.x03 ]} [].

Definition entries : list Entry :=
  [ mkEntry "b.txt" false 30 100 "b.txt";
    mkEntry "A.txt" false 10 300 "A.txt";
    mkEntry "c" true 30 200 "c";
    mkEntry "a.txt" false 20 300 "a.txt" ].

End Demo.

(* ===================================================================== *)
(** * list_dir, api_list and api_roots *)
(* ===================================================================== *)

(** [needle in hay] for two [str]. *)
Fixpoint contains (needle hay : string) : bool :=
  String.prefix needle hay
  || match hay with
     | EmptyString => false
     | String _ hay' => contains needle hay'
     end.

(** [s.lstrip('/')] *)
Fixpoint lstrip_slash (s : string) : string :=
  match s with
  | String c r => if Ascii.eqb c "/" then lstrip_slash r else s
  | EmptyString => EmptyString
  end.

(** [s.endswith('/')] *)
Fixpoint ends_with_slash (s : string) : bool :=
  match s with
  | EmptyString => false
  | String c EmptyString => Ascii.eqb c "/"
  | String _ r => ends_with_slash r
  end.

(** [os.path.join(a, b)] *)
Definition os_path_join (a b : string) : string :=
  if Py.startswith b "/" then b
  else if Py.falsy a || ends_with_slash a then a +:+ b
  else a +:+ "/" +:+ b.

(** What [list_dir] asks of the file system beyond [Env]: the names in a
    directory, in the order the system enumerates them, and for a child
    whether it is a directory and its [int(stat.st_mtime)].  As in [Env],
    these are the values of a run in which [iterdir] and every [stat]
    return. *)
Record DirEnv := mkDirEnv {
  fs : Env;
  listdir : Path -> list string;
  is_directory : Path -> bool;            (* p.is_dir() *)
  st_mtime : Path -> Z                    (* int(p.stat().st_mtime) *)
}.

(** The path [base.iterdir()] yields for a name. *)
Definition child (base : Path) (nm : string) : Path :=
  mkPath (anchor base) (parts base ++ [nm]).

Definition ListNotFound : HTTPException := mkHTTPException 404 (Some "not found").
Definition NotADirectory : HTTPException := mkHTTPException 400 (Some "not a directory").

Section ListDir.
Variable lower : string -> string.
Variable denv : DirEnv.

(** [q and q.lower() not in name.lower()]: the entry is skipped. *)
Definition skipped (q : option string) (nm : string) : bool :=
  match q with
  | Some (String c s) => negb (contains (lower (String c s)) (lower nm))
  | _ => false
  end.

(** The [for] loop of [list_dir] over the sorted children. *)
Fixpoint collect_entries (base : Path) (rel : string) (q : option string)
    (names : list string) : list Entry :=
  match names with
  | [] => []
  | nm :: rest =>
      let p := child base nm in
      if skipped q nm then collect_entries base rel q rest
      else mkEntry nm (is_directory denv p) (st_size (fs denv) p) (st_mtime denv p)
                   (lstrip_slash (os_path_join rel nm))
           :: collect_entries base rel q rest
  end.

(** [sorted(base.iterdir())]: the children of one directory differ in their
    last component only, so that they are ordered by name. *)
Definition sorted_names (base : Path) : list string :=
  list_sort (fun nm => nm) String.leb (listdir denv base).

Definition list_dir (roots : list string) (root_index : Z) (rel : string)
    (q : option string) : result (list Entry) :=
  match normalize_root_and_rel (fs denv) roots root_index rel with
  | Raise e => Raise e
  | Ok base =>
      if negb (path_exists (fs denv) base) then Raise ListNotFound
      else if is_file (fs denv) base then Raise NotADirectory
      else Ok (collect_entries base rel q (sorted_names base))
  end.

(** [path_param], [q] and [sort_param] are the query parameters [p], [q] and
    [sort] as sent; a missing [p] is the empty path. *)
Definition api_list (roots : list string) (root_index : Z)
    (path_param q sort_param : option string) : result (list Entry) :=
  match list_dir roots root_index
          (match path_param with Some p => p | None => EmptyString end) q with
  | Raise e => Raise e
  | Ok items => Ok (api_list_order lower sort_param items)
  end.
End ListDir.

(** [[{"index": i, "path": p} for i, p in enumerate(ROOT_DIRS)]] *)
Fixpoint enumerate_from {A} (i : Z) (l : list A) : list (Z * A) :=
  match l with
  | [] => []
  | x :: r => (i, x) :: enumerate_from (i + 1) r
  end.

Definition api_roots (roots : list string) : list (Z * string) :=
  enumerate_from 0 roots.

(** The check made when the module is loaded: [os.path.isabs(p)] for every
    root. *)
Definition roots_absolute (roots : list string) : bool :=
  forallb (fun p => Py.startswith p "/") roots.

Module DemoDir.

(** The directory [/srv/media] of the sample installation, enumerated in no
    particular order, with a sub-directory. *)
Definition denv : DirEnv := {|
  fs := Demo.env;
  listdir := fun p =>
    if String.eqb (path_str p) "/srv/media"
    then ["photo.jpg"; "clip.mp4"; "Sub"; "empty.bin"; "broken.jpg"]
    else [];
  is_directory := fun p => String.eqb (path_str p) "/srv/media/Sub";
  st_mtime := fun p =>
    if String.eqb (path_str p) "/srv/media/clip.mp4" then 1700000000 else 1600000000
|}.

End DemoDir.

(* ===================================================================== *)
(** * The built-ins on examples *)
(* ===================================================================== *)

Example str_of_int_0 : Py.str_of_int 0 = "0"%string. Proof. reflexivity. Qed.
Example str_of_int_neg : Py.str_of_int (-399) = "-399"%string. Proof. reflexivity. Qed.
Example split_eq : Py.split "="%char "bytes=0-99" = ["bytes"; "0-99"]%string. Proof. reflexivity. Qed.
Example split_empty : Py.split "-"%char "" = [""]%string. Proof. reflexivity. Qed.
Example int_plain : Py.int "1999" = Some 1999. Proof. reflexivity. Qed.
Example int_blank : Py.int " 1_000 " = Some 1000. Proof. reflexivity. Qed.
Example int_bad_us : Py.int "1__0" = None. Proof. reflexivity. Qed.
Example int_lead_us : Py.int "_10" = None. Proof. reflexivity. Qed.
Example int_empty : Py.int "" = None. Proof. reflexivity. Qed.

(** The digit limit: 4300 digits convert, 4301 do not, leading zeros
    included, and [media] then reads the header as the whole file. *)
Example int_digit_limit :
  Py.int (string_of_list_ascii (List.repeat "9"%char 4300)) <> None
  /\ Py.int (string_of_list_ascii (List.repeat "0"%char 4301)) = None
  /\ parse_range ("bytes=" +:+ string_of_list_ascii (List.repeat "1"%char 4301) +:+ "-")
       1000 = (0, 999).
Proof.
  split; [|split; lazy; reflexivity].
  assert (match Py.int (string_of_list_ascii (List.repeat "9"%char 4300)) with
          | Some _ => True
          | None => False
          end) as H by exact I.
  destruct (Py.int _); [discriminate | destruct H].
Qed.

Example int_signed : Py.int "+7" = Some 7 /\ Py.int "-7" = Some (-7) /\ Py.int "+ 7" = None.
Proof. repeat split. Qed.
Example index_last : Py.index [10; 20; 30] (-1) = Some 30. Proof. reflexivity. Qed.
Example index_out : Py.index [10; 20; 30] 3 = None. Proof. reflexivity. Qed.
Example index_out_neg : Py.index [10; 20; 30] (-4) = None. Proof. reflexivity. Qed.
Example path_str_collapses : path_str (parse_path "//a/./b//c/") = "//a/b/c"%string.
Proof. reflexivity. Qed.
Example path_join_keeps_dotdot :
  path_str (joinpath (parse_path "/root") "../root2") = "/root/../root2"%string.
Proof. reflexivity. Qed.
Example path_join_absolute :
  path_str (joinpath (parse_path "/root") "/etc/passwd") = "/etc/passwd"%string.
Proof. reflexivity. Qed.
Example parse_range_plain : parse_range "bytes=0-99" 1000 = (0, 99).
Proof. reflexivity. Qed.
Example parse_range_open_end : parse_range "bytes=500-" 1000 = (500, 999).
Proof. reflexivity. Qed.
Example parse_range_malformed : parse_range "bytes=5--3" 1000 = (0, 999).
Proof. reflexivity. Qed.
Example read_loop_chunks :
  read_loop [Byte.x00; Byte.x01; Byte.x02; Byte.x03; Byte.x04] 2 3
  = [[Byte.x00; Byte.x01]; [Byte.x02]].
Proof. reflexivity. Qed.

(* ===================================================================== *)
(** * normalize_root_and_rel *)
(* ===================================================================== *)

Lemma prefix_refl (s : string) : String.prefix s s = true.
Proof.
  induction s as [|c s IH]; simpl; [reflexivity|].
  destruct (ascii_dec c c); [exact IH | congruence].
Qed.

Lemma prefix_nil_r (s : string) : String.prefix s "" = true -> s = ""%string.
Proof. destruct s; simpl; [reflexivity | discriminate]. Qed.

(** Indexing fails exactly outside [-len, len). *)
Lemma index_None_iff {A} (l : list A) (i : Z) :
  Py.index l i = None <-> (i < - Z.of_nat (length l) \/ Z.of_nat (length l) <= i).
Proof.
  unfold Py.index.
  destruct (i <? 0) eqn:Hneg;
    [apply Z.ltb_lt in Hneg | apply Z.ltb_ge in Hneg].
  - destruct ((0 <=? i + Z.of_nat (length l)) && (i + Z.of_nat (length l) <? Z.of_nat (length l))) eqn:Hin.
    + apply andb_true_iff in Hin as [H1 H2].
      apply Z.leb_le in H1. apply Z.ltb_lt in H2.
      rewrite nth_error_None. split; lia.
    + apply andb_false_iff in Hin as [H1 | H2];
        [apply Z.leb_gt in H1 | apply Z.ltb_ge in H2]; split; intros; try reflexivity; lia.
  - destruct ((0 <=? i) && (i <? Z.of_nat (length l))) eqn:Hin.
    + apply andb_true_iff in Hin as [H1 H2].
      apply Z.leb_le in H1. apply Z.ltb_lt in H2.
      rewrite nth_error_None. split; lia.
    + apply andb_false_iff in Hin as [H1 | H2];
        [apply Z.leb_gt in H1 | apply Z.ltb_ge in H2]; split; intros; try reflexivity; lia.
Qed.

(** The indices for which [normalize_root_and_rel] answers "invalid root
    index" are those outside [-len(ROOT_DIRS), len(ROOT_DIRS)). *)
Lemma normalize_root_and_rel_invalid_root_iff env roots root_index rel_path :
  normalize_root_and_rel env roots root_index rel_path = Raise InvalidRoot
  <-> (root_index < - Z.of_nat (length roots) \/ Z.of_nat (length roots) <= root_index).
Proof.
  rewrite <- index_None_iff. unfold normalize_root_and_rel.
  destruct (Py.index roots root_index) as [r|]; [|tauto].
  split; [|discriminate].
  destruct (negb _); discriminate.
Qed.

(** A resolved path is returned exactly when its string starts with the
    string of the resolved root. *)
Lemma normalize_root_and_rel_Ok_iff env roots root_index rel_path p :
  normalize_root_and_rel env roots root_index rel_path = Ok p
  <-> exists r, Py.index roots root_index = Some r
        /\ p = resolve env (joinpath (parse_path r) rel_path)
        /\ Py.startswith (path_str p) (path_str (resolve env (parse_path r))) = true.
Proof.
  unfold normalize_root_and_rel.
  destruct (Py.index roots root_index) as [r|].
  - destruct (Py.startswith _ _) eqn:Hpre; simpl.
    + split.
      * intros [= <-]. exists r. auto.
      * intros (r' & [= <-] & -> & _). reflexivity.
    + split; [discriminate|].
      intros (r' & [= <-] & -> & H). congruence.
  - split; [discriminate|]. intros (r' & H & _). discriminate.
Qed.

Lemma joinpath_empty (p : Path) : joinpath p "" = p.
Proof.
  destruct p as [a l]. unfold joinpath. simpl. rewrite app_nil_r. reflexivity.
Qed.

(** The empty relative path resolves to the selected root. *)
Lemma normalize_root_and_rel_root_itself env roots root_index r :
  Py.index roots root_index = Some r ->
  normalize_root_and_rel env roots root_index ""
  = Ok (resolve env (parse_path r)).
Proof.
  intros Hr. unfold normalize_root_and_rel. rewrite Hr, joinpath_empty.
  unfold Py.startswith. rewrite prefix_refl. reflexivity.
Qed.

(** C4, evaluated on the code: with the configured [ROOT_DIRS], the root index
    [-1] is not answered with "invalid root index": it selects the last root,
    whatever the file system, and the empty relative path resolves to that
    root itself. *)
Theorem normalize_root_and_rel_negative_index_accepted (env : Env) :
  (forall rel_path,
      normalize_root_and_rel env ROOT_DIRS (-1) rel_path <> Raise InvalidRoot)
  /\ normalize_root_and_rel env ROOT_DIRS (-1) ""
     = Ok (resolve env (parse_path (nth 1 ROOT_DIRS ""%string)))
  /\ normalize_root_and_rel env ROOT_DIRS (-2) ""
     = Ok (resolve env (parse_path (nth 0 ROOT_DIRS ""%string))).
Proof.
  split; [|split].
  - intros rel_path H.
    apply normalize_root_and_rel_invalid_root_iff in H. simpl in H. lia.
  - apply normalize_root_and_rel_root_itself. reflexivity.
  - apply normalize_root_and_rel_root_itself. reflexivity.
Qed.

(** C1, evaluated on the code: the test is a prefix test on strings.  On a file
    system without symbolic links, with the configured [ROOT_DIRS], the
    relative path ["../gp22"] under root 1 ([.../gp2/gp2]) leaves the root
    through [".."], resolves to the sibling [.../gp2/gp22], and is returned;
    likewise ["../media2/secret.txt"] under the root [/srv/media]. *)
Theorem normalize_root_and_rel_sibling_prefix_accepted :
  (exists cand,
      normalize_root_and_rel Demo.env ROOT_DIRS 1 "../gp22" = Ok cand
      /\ last (parts cand) = Some "gp22"%string
      /\ is_relative_to cand
           (resolve Demo.env (parse_path (nth 1 ROOT_DIRS ""%string))) = false)
  /\ normalize_root_and_rel Demo.env Demo.roots 0 "../media2/secret.txt"
     = Ok (mkPath "/" ["srv"; "media2"; "secret.txt"]%string)
  /\ is_relative_to (mkPath "/" ["srv"; "media2"; "secret.txt"]%string)
       (resolve Demo.env (parse_path "/srv/media")) = false.
Proof.
  split; [|split]; [|vm_compute; reflexivity..].
  eexists. split; [vm_compute; reflexivity|].
  split; vm_compute; reflexivity.
Qed.

(** The prefix test has no false rejection: a candidate inside the subtree of
    an absolute root is accepted. *)
Lemma prefix_nil s : String.prefix "" s = true.
Proof. destruct s; reflexivity. Qed.

Lemma prefix_app_same a s t : String.prefix (a +:+ s) (a +:+ t) = String.prefix s t.
Proof.
  induction a as [|c a IH]; [reflexivity|].
  simpl. destruct (ascii_dec c c); [exact IH | congruence].
Qed.

Lemma prefix_app_r s t : String.prefix s (s +:+ t) = true.
Proof.
  induction s as [|c s IH]; [apply prefix_nil|].
  simpl. destruct (ascii_dec c c); [exact IH | congruence].
Qed.

Lemma join_parts_prefix l m :
  parts_prefix l m = true ->
  String.prefix (Py.join "/" l) (Py.join "/" m) = true.
Proof.
  revert m. induction l as [|x l IH]; intros m H; [apply prefix_nil|].
  destruct m as [|y m]; [discriminate|].
  cbn [parts_prefix] in H. apply andb_true_iff in H as [Hxy Hlm].
  apply String.eqb_eq in Hxy. subst y.
  destruct l as [|x' l].
  - destruct m as [|y' m]; cbn [Py.join]; [apply prefix_refl | apply prefix_app_r].
  - destruct m as [|y' m]; [discriminate|].
    change (Py.join "/" (x :: x' :: l)) with (x +:+ "/" +:+ Py.join "/" (x' :: l)).
    change (Py.join "/" (x :: y' :: m)) with (x +:+ "/" +:+ Py.join "/" (y' :: m)).
    rewrite !prefix_app_same. apply IH. exact Hlm.
Qed.

Lemma is_relative_to_startswith q p :
  anchor p <> ""%string ->
  is_relative_to q p = true ->
  Py.startswith (path_str q) (path_str p) = true.
Proof.
  intros Habs H. unfold is_relative_to in H.
  apply andb_true_iff in H as [Ha Hp]. apply String.eqb_eq in Ha.
  unfold Py.startswith, path_str. rewrite <- Ha.
  destruct (anchor p) as [|c a] eqn:Hanchor; [congruence|].
  rewrite prefix_app_same. apply join_parts_prefix. exact Hp.
Qed.

(** X1: the prefix test has no false rejection: a candidate that lies inside
    the subtree of the resolved root, when that root is absolute, is
    returned. *)
Lemma normalize_root_and_rel_accepts_contained env roots root_index rel_path r :
  Py.index roots root_index = Some r ->
  anchor (resolve env (parse_path r)) <> ""%string ->
  is_relative_to (resolve env (joinpath (parse_path r) rel_path))
                 (resolve env (parse_path r)) = true ->
  normalize_root_and_rel env roots root_index rel_path
  = Ok (resolve env (joinpath (parse_path r) rel_path)).
Proof.
  intros Hr Habs Hin. unfold normalize_root_and_rel. rewrite Hr.
  rewrite is_relative_to_startswith by assumption. reflexivity.
Qed.

(** A relative path that climbs out of the root is rejected when the place it
    reaches does not share the string prefix. *)
Example normalize_root_and_rel_escape_rejected :
  normalize_root_and_rel Demo.env Demo.roots 0 "a/../../../etc/passwd" = Raise PathEscape
  /\ normalize_root_and_rel Demo.env Demo.roots 0 "/etc/passwd" = Raise PathEscape
  /\ normalize_root_and_rel Demo.env Demo.roots 0 "sub/../clip.mp4"
     = Ok Demo.clip_path.
Proof. repeat split; vm_compute; reflexivity. Qed.

(* ===================================================================== *)
(** * Range parsing *)
(* ===================================================================== *)

Lemma split_no_sep sep s x :
  In x (Py.split sep s) -> ~ In sep (list_ascii_of_string x).
Proof.
  revert x. induction s as [|c r IH]; intros x Hx; simpl in Hx.
  - destruct Hx as [<- | []]. simpl. tauto.
  - destruct (Ascii.eqb c sep) eqn:Hc.
    + destruct Hx as [<- | Hx]; [simpl; tauto | auto].
    + apply Ascii.eqb_neq in Hc.
      destruct (Py.split sep r) as [|h t] eqn:Hs.
      * destruct Hx as [<- | []]. simpl. intros [? | []]. congruence.
      * destruct Hx as [<- | Hx].
        -- simpl. intros [? | Hin]; [congruence|].
           apply (IH h); [left; reflexivity | exact Hin].
        -- apply IH. right. exact Hx.
Qed.

Lemma digit_value_nonneg c d : Py.digit_value c = Some d -> 0 <= d.
Proof.
  unfold Py.digit_value. destruct (_ && _); [|discriminate].
  intros [= <-]. lia.
Qed.

Lemma scan_digits_nonneg s b acc v rest :
  Py.scan_digits s b acc = Some (v, rest) -> 0 <= acc -> 0 <= v.
Proof.
  revert b acc. induction s as [|c r IH]; intros b acc H Hacc; simpl in H.
  - destruct b; [discriminate|]. injection H as <- _. exact Hacc.
  - destruct (Py.digit_value c) as [d|] eqn:Hd.
    + apply digit_value_nonneg in Hd. eapply IH; [exact H | lia].
    + destruct (Py.is_underscore c).
      * destruct b; [discriminate|]. eapply IH; eauto.
      * destruct b; [discriminate|]. injection H as <- _. exact Hacc.
Qed.

Lemma int_unsigned_nonneg s v : Py.int_unsigned s = Some v -> 0 <= v.
Proof.
  unfold Py.int_unsigned. destruct s as [|c r]; [discriminate|].
  destruct (Py.digit_value c); [|discriminate].
  destruct (Py.scan_digits _ _ _) as [[w rest]|] eqn:Hs; [|discriminate].
  destruct (Py.falsy _); [|discriminate].
  destruct (_ <=? _); [|discriminate].
  intros [= <-]. eapply scan_digits_nonneg; [exact Hs | lia].
Qed.

Lemma skip_spaces_In c s :
  In c (list_ascii_of_string (Py.skip_spaces s)) -> In c (list_ascii_of_string s).
Proof.
  induction s as [|a r IH]; simpl; [tauto|].
  destruct (Py.is_space a); simpl; tauto.
Qed.

(** [int] gives a negative number only for a literal with a minus sign. *)
Lemma int_negative_has_minus s v :
  Py.int s = Some v -> v < 0 -> In "-"%char (list_ascii_of_string s).
Proof.
  unfold Py.int. intros H Hv. apply skip_spaces_In.
  destruct (Py.skip_spaces s) as [|c r]; [discriminate|].
  destruct (Ascii.eqb c "+") eqn:Hplus.
  { apply int_unsigned_nonneg in H. lia. }
  destruct (Ascii.eqb c "-") eqn:Hminus.
  { apply Ascii.eqb_eq in Hminus. subst c. simpl. tauto. }
  apply int_unsigned_nonneg in H. lia.
Qed.

(** The parsed [start] is never negative: a minus sign cannot survive
    [rng.split('-')]. *)
Lemma parse_range_start_nonneg h fsize : 0 <= fst (parse_range h fsize).
Proof.
  unfold parse_range.
  destruct (Py.split "=" h) as [|units [|rng [|? ?]]]; simpl; try lia.
  destruct (Py.split "-" rng) as [|start_s [|end_s [|? ?]]] eqn:Hs; simpl; try lia.
  destruct (Py.falsy start_s) eqn:Hf.
  - destruct (if Py.falsy end_s then _ else _); simpl; lia.
  - destruct (Py.int start_s) as [start|] eqn:Hi; simpl; [|lia].
    assert (0 <= start) as Hnn.
    { destruct (Z_lt_dec start 0) as [Hneg|]; [|lia].
      exfalso. apply (split_no_sep "-" rng start_s).
      - rewrite Hs. left. reflexivity.
      - eapply int_negative_has_minus; eauto. }
    destruct (if Py.falsy end_s then _ else _); simpl; lia.
Qed.

(* ===================================================================== *)
(** * media *)
(* ===================================================================== *)

(** What [media] answers to a non-empty Range header on an existing regular
    file. *)
Lemma media_range env roots root_index full_path p h :
  normalize_root_and_rel env roots root_index full_path = Ok p ->
  path_exists env p = true ->
  is_file env p = true ->
  h <> ""%string ->
  media env roots root_index full_path (Some h)
  = Ok (range_response env p (st_size env p)
          (fst (parse_range h (st_size env p)))
          (snd (parse_range h (st_size env p)))).
Proof.
  intros Hp Hex Hfile Hh. unfold media. rewrite Hp, Hex, Hfile. simpl.
  destruct h as [|c h]; [congruence|].
  destruct (parse_range _ _). reflexivity.
Qed.

(** C6: on an existing regular file of size S, a Range header whose parsed
    start is at least S is answered with status 416 and an empty body. *)
Theorem media_range_not_satisfiable env roots root_index full_path p h start e :
  normalize_root_and_rel env roots root_index full_path = Ok p ->
  path_exists env p = true ->
  is_file env p = true ->
  h <> ""%string ->
  parse_range h (st_size env p) = (start, e) ->
  st_size env p <= start ->
  exists r,
    media env roots root_index full_path (Some h) = Ok r
    /\ status r = 416
    /\ body r = Content []
    /\ body_bytes (body r) = Some [].
Proof.
  intros Hp Hex Hfile Hh Hparse Hstart.
  rewrite (media_range _ _ _ _ p) by assumption.
  rewrite Hparse. simpl. unfold range_response.
  destruct (start >=? st_size env p) eqn:Hge; [|lia].
  eexists. repeat split.
Qed.

(** The scenario of C6: S = 1000 and [Range: bytes=1000-1999]. *)
Lemma media_range_not_satisfiable_witness :
  parse_range "bytes=1000-1999" (st_size Demo.env Demo.clip_path)
    = (1000, 1999)
  /\ exists r,
       media Demo.env Demo.roots 0 "clip.mp4" (Some "bytes=1000-1999"%string) = Ok r
       /\ status r = 416
       /\ body r = Content []
       /\ body_bytes (body r) = Some [].
Proof.
  split; [reflexivity|].
  apply (media_range_not_satisfiable Demo.env Demo.roots 0 "clip.mp4"
           Demo.clip_path
           "bytes=1000-1999" 1000 1999);
    [reflexivity | reflexivity | reflexivity | discriminate | reflexivity
    | vm_compute; discriminate].
Defined.

(** C2, evaluated on the code: for the 1000-byte file and
    [Range: bytes=0-1999] the answer is 206 and the body is the 1000 bytes of
    the file, but the headers carry the requested end, not the clamped one:
    [Content-Range: bytes 0-1999/1000] and [Content-Length: 2000].  (For
    [bytes=0-99], where nothing overshoots, the headers are the ones of the
    scenario.) *)
Theorem media_range_overshoot_headers_unclamped :
  (exists r,
      media Demo.env Demo.roots 0 "clip.mp4" (Some "bytes=0-1999"%string) = Ok r
      /\ status r = 206
      /\ header r "Content-Range" = Some "bytes 0-1999/1000"%string
      /\ header r "Content-Length" = Some "2000"%string
      /\ body_bytes (body r) = Some Demo.clip
      /\ length Demo.clip = 1000%nat)
  /\ (exists r,
      media Demo.env Demo.roots 0 "clip.mp4" (Some "bytes=0-99"%string) = Ok r
      /\ status r = 206
      /\ header r "Content-Range" = Some "bytes 0-99/1000"%string
      /\ header r "Content-Length" = Some "100"%string
      /\ body_bytes (body r) = Some (take 100 Demo.clip)).
Proof.
  split; eexists; (split; [vm_compute; reflexivity|]);
    repeat split; vm_compute; reflexivity.
Qed.

(** The headers of a 206 answer are computed from the parsed [end] as it is. *)
Lemma range_response_headers env p fsize start e :
  start < fsize ->
  let r := range_response env p fsize start e in
  status r = 206
  /\ header r "Content-Range"
     = Some ("bytes " +:+ Py.str_of_int start +:+ "-" +:+ Py.str_of_int e
                      +:+ "/" +:+ Py.str_of_int fsize)
  /\ header r "Accept-Ranges" = Some "bytes"%string
  /\ header r "Content-Length" = Some (Py.str_of_int (e - start + 1))
  /\ body r = Streaming (iter_file_range env p start (Some e) CHUNK_SIZE).
Proof.
  intros Hlt. unfold range_response.
  destruct (start >=? fsize) eqn:Hge; [lia|].
  repeat split.
Qed.

Lemma read_loop_nonpos rest chunk_size to_read :
  to_read <= 0 -> read_loop rest chunk_size to_read = [].
Proof.
  intros H. rewrite read_loop_equation_1.
  destruct (Z_lt_dec 0 to_read); [lia | reflexivity].
Qed.

(** C10: on an existing regular file of size S, a Range header that parses to
    start < S and end < start is answered with status 206, the Content-Length
    header is [end - start + 1], which is zero or negative, and the body
    yields no chunk. *)
Theorem media_inverted_range env roots root_index full_path p h start e :
  normalize_root_and_rel env roots root_index full_path = Ok p ->
  path_exists env p = true ->
  is_file env p = true ->
  h <> ""%string ->
  parse_range h (st_size env p) = (start, e) ->
  start < st_size env p ->
  e < start ->
  exists r,
    media env roots root_index full_path (Some h) = Ok r
    /\ status r = 206
    /\ header r "Content-Range"
       = Some ("bytes " +:+ Py.str_of_int start +:+ "-" +:+ Py.str_of_int e
                        +:+ "/" +:+ Py.str_of_int (st_size env p))
    /\ header r "Content-Length" = Some (Py.str_of_int (e - start + 1))
    /\ e - start + 1 <= 0
    /\ body r = Streaming (Some [])
    /\ body_bytes (body r) = Some [].
Proof.
  intros Hp Hex Hfile Hh Hparse Hstart Hinv.
  pose proof (parse_range_start_nonneg h (st_size env p)) as Hnn.
  rewrite Hparse in Hnn. simpl in Hnn.
  rewrite (media_range _ _ _ _ p) by assumption.
  rewrite Hparse. simpl fst. simpl snd.
  destruct (range_response_headers env p (st_size env p) start e Hstart)
    as (Hst & Hcr & _ & Hcl & Hbody).
  assert (iter_file_range env p start (Some e) CHUNK_SIZE = Some []) as Hiter.
  { unfold iter_file_range, iter_file_range_on.
    destruct (e >=? st_size env p) eqn:Hge; [lia|].
    destruct (start <? 0) eqn:Hneg; [lia|].
    rewrite read_loop_nonpos by lia. reflexivity. }
  eexists. split; [reflexivity|].
  rewrite Hbody, Hiter.
  repeat split; try assumption. lia.
Qed.

(** The example of C10: S = 1000 and [Range: bytes=500-100]. *)
Lemma media_inverted_range_witness :
  parse_range "bytes=500-100" (st_size Demo.env Demo.clip_path)
    = (500, 100)
  /\ exists r,
       media Demo.env Demo.roots 0 "clip.mp4" (Some "bytes=500-100"%string) = Ok r
       /\ status r = 206
       /\ header r "Content-Range"
          = Some ("bytes " +:+ Py.str_of_int 500 +:+ "-" +:+ Py.str_of_int 100
                           +:+ "/" +:+ Py.str_of_int
                                 (st_size Demo.env Demo.clip_path))
       /\ header r "Content-Length" = Some (Py.str_of_int (100 - 500 + 1))
       /\ 100 - 500 + 1 <= 0
       /\ body r = Streaming (Some [])
       /\ body_bytes (body r) = Some [].
Proof.
  split; [reflexivity|].
  apply (media_inverted_range Demo.env Demo.roots 0 "clip.mp4"
           Demo.clip_path
           "bytes=500-100" 500 100);
    [reflexivity | reflexivity | reflexivity | discriminate | reflexivity
    | reflexivity | reflexivity].
Defined.

Example inverted_range_headers_example :
  exists r,
    media Demo.env Demo.roots 0 "clip.mp4" (Some "bytes=500-100"%string) = Ok r
    /\ header r "Content-Range" = Some "bytes 500-100/1000"%string
    /\ header r "Content-Length" = Some "-399"%string.
Proof. eexists. split; [vm_compute; reflexivity|]. split; reflexivity. Qed.

(* ===================================================================== *)
(** * iter_file_range *)
(* ===================================================================== *)

Lemma read_nonneg rest n :
  0 <= n -> read rest n = (take (Z.to_nat n) rest, drop (Z.to_nat n) rest).
Proof. intros H. unfold read. destruct (n <? 0) eqn:E; [lia | reflexivity]. Qed.

(** With a positive chunk size the loop yields, in order, the first
    [to_read] bytes after the position (all of them when fewer are left). *)
Lemma read_loop_concat rest chunk_size to_read :
  0 < chunk_size ->
  concat (read_loop rest chunk_size to_read) = take (Z.to_nat to_read) rest.
Proof.
  intros Hcs. funelim (read_loop rest chunk_size to_read).
  - replace (Z.to_nat to_read) with 0%nat by lia. reflexivity.
  - rewrite read_nonneg in * by lia.
    match goal with H : (take _ _, _) = ([], _) |- _ => injection H as Ht _ end.
    destruct rest as [|x rest]; [now rewrite take_nil|].
    destruct (Z.to_nat (Z.min chunk_size to_read)) eqn:Hm; [lia | discriminate].
  - rewrite read_nonneg in * by lia.
    match goal with H : (take _ _, _) = (_ :: _, _) |- _ => injection H as Ht Hd end.
    match goal with IH : _ -> concat _ = _ |- _ => specialize (IH Hcs) end.
    cbn [concat].
    match goal with IH : concat _ = _ |- _ => rewrite IH end.
    rewrite <- Ht, <- Hd.
    set (m := Z.to_nat (Z.min chunk_size to_read)).
    destruct (le_lt_dec m (length rest)) as [Hle | Hgt].
    + rewrite length_take, Nat.min_l by exact Hle.
      rewrite take_take_drop. f_equal. lia.
    + rewrite (take_ge rest m) by lia.
      rewrite (drop_ge rest m) by lia.
      rewrite take_nil, app_nil_r.
      symmetry. apply take_ge. lia.
Qed.

(** No chunk is empty and none is longer than the chunk size. *)
Lemma read_loop_chunks_bounded rest chunk_size to_read :
  0 < chunk_size ->
  Forall (fun c => 0 < Z.of_nat (length c) <= chunk_size)
         (read_loop rest chunk_size to_read).
Proof.
  intros Hcs. funelim (read_loop rest chunk_size to_read).
  - constructor.
  - constructor.
  - rewrite read_nonneg in * by lia.
    match goal with H : (take _ _, _) = (_ :: _, _) |- _ => injection H as Ht Hd end.
    constructor; [|auto].
    rewrite <- Ht, length_take. simpl length in *.
    assert (0 < length (take (Z.to_nat (Z.min chunk_size to_read)) rest))%nat as Hpos
      by (rewrite Ht; simpl; lia).
    rewrite length_take in Hpos. lia.
Qed.

(** C5: for a file of size S and [0 <= start <= end < S], the chunks yielded
    by the generator concatenate to the inclusive span [start, end] of the
    file, [end - start + 1] bytes in all, no chunk is longer than the chunk
    size, and whatever the file holds when it is read (say it has grown since
    [stat]) no more than [end - start + 1] bytes are yielded. *)
Theorem iter_file_range_exact_span (env : Env) (path : Path)
    (start e chunk_size : Z) :
  st_size env path = Z.of_nat (length (file_bytes env path)) ->
  0 <= start -> start <= e -> e < st_size env path ->
  0 < chunk_size ->
  exists chunks,
    iter_file_range env path start (Some e) chunk_size = Some chunks
    /\ concat chunks
       = take (Z.to_nat (e - start + 1)) (drop (Z.to_nat start) (file_bytes env path))
    /\ Z.of_nat (length (concat chunks)) = e - start + 1
    /\ (forall i, (i < Z.to_nat (e - start + 1))%nat ->
          concat chunks !! i = file_bytes env path !! (Z.to_nat start + i)%nat)
    /\ Forall (fun c => 0 < Z.of_nat (length c) <= chunk_size) chunks
    /\ (forall grown : Py.bytes,
          exists chunks',
            iter_file_range_on (st_size env path) grown start (Some e) chunk_size
              = Some chunks'
            /\ Z.of_nat (length (concat chunks')) <= e - start + 1).
Proof.
  intros Hsize Hstart Hle Hlt Hcs.
  unfold iter_file_range, iter_file_range_on.
  destruct (e >=? st_size env path) eqn:Hge; [lia|].
  destruct (start <? 0) eqn:Hneg; [lia|].
  eexists. split; [reflexivity|].
  rewrite read_loop_concat by exact Hcs.
  split; [reflexivity|].
  split.
  { rewrite length_take, length_drop. lia. }
  split.
  { intros i Hi. rewrite lookup_take_lt by exact Hi. apply lookup_drop. }
  split.
  { apply read_loop_chunks_bounded. exact Hcs. }
  intros grown. eexists. split; [reflexivity|].
  rewrite read_loop_concat by exact Hcs.
  rewrite length_take. lia.
Qed.

(** C5 on the 1000-byte file: bytes 10 to 19, read in chunks of 4. *)
Lemma iter_file_range_exact_span_witness :
  st_size Demo.env Demo.clip_path = Z.of_nat (length (file_bytes Demo.env Demo.clip_path))
  /\ exists chunks,
    iter_file_range Demo.env Demo.clip_path 10 (Some 19) 4 = Some chunks
    /\ concat chunks
       = take (Z.to_nat (19 - 10 + 1)) (drop (Z.to_nat 10) (file_bytes Demo.env Demo.clip_path))
    /\ Z.of_nat (length (concat chunks)) = 19 - 10 + 1
    /\ (forall i, (i < Z.to_nat (19 - 10 + 1))%nat ->
          concat chunks !! i = file_bytes Demo.env Demo.clip_path !! (Z.to_nat 10 + i)%nat)
    /\ Forall (fun c => 0 < Z.of_nat (length c) <= 4) chunks
    /\ (forall grown : Py.bytes,
          exists chunks',
            iter_file_range_on (st_size Demo.env Demo.clip_path) grown 10 (Some 19) 4
              = Some chunks'
            /\ Z.of_nat (length (concat chunks')) <= 19 - 10 + 1).
Proof.
  split; [reflexivity|].
  apply (iter_file_range_exact_span Demo.env Demo.clip_path 10 19 4);
    [reflexivity | lia | lia | reflexivity | lia].
Defined.

Example iter_file_range_chunks :
  iter_file_range Demo.env Demo.clip_path 10 (Some 19) 4
  = Some [ [Byte.x0a; Byte.x0b; Byte.x0c; Byte.x0d];
           [Byte.x0e; Byte.x0f; Byte.x10; Byte.x11];
           [Byte.x12; Byte.x13] ].
Proof. vm_compute. reflexivity. Qed.

(** The end is clamped to the last byte of the file for the body. *)
Lemma iter_file_range_clamps (env : Env) (path : Path) (start e chunk_size : Z) :
  st_size env path <= e ->
  iter_file_range env path start (Some e) chunk_size
  = iter_file_range env path start (Some (st_size env path - 1)) chunk_size.
Proof.
  intros He. unfold iter_file_range, iter_file_range_on.
  destruct (e >=? st_size env path) eqn:H1; [|lia].
  destruct (st_size env path - 1 >=? st_size env path) eqn:H2; [lia|].
  reflexivity.
Qed.

(** What the body of a 206 answer holds, on a file whose [stat] size is the
    length of its content: the bytes from [start] to the end of the file or
    to [end], whichever comes first. *)
Lemma range_body_length env p start e :
  st_size env p = Z.of_nat (length (file_bytes env p)) ->
  0 <= start -> start < st_size env p -> start <= e ->
  exists chunks,
    iter_file_range env p start (Some e) CHUNK_SIZE = Some chunks
    /\ Z.of_nat (length (concat chunks)) = Z.min e (st_size env p - 1) - start + 1.
Proof.
  intros Hsize Hstart Hlt Hle.
  unfold iter_file_range, iter_file_range_on.
  destruct (start <? 0) eqn:Hneg; [lia|].
  eexists. split; [reflexivity|].
  rewrite read_loop_concat by reflexivity.
  rewrite length_take, length_drop.
  destruct (e >=? st_size env p) eqn:Hge; lia.
Qed.

(** X2: for a range inside the file ([start <= end < size]) the answer is
    206, the Content-Range and Content-Length headers are those of the range,
    and the body has exactly the [end - start + 1] bytes the header
    announces. *)
Lemma media_range_in_bounds env roots root_index full_path p h start e :
  normalize_root_and_rel env roots root_index full_path = Ok p ->
  path_exists env p = true ->
  is_file env p = true ->
  h <> ""%string ->
  parse_range h (st_size env p) = (start, e) ->
  st_size env p = Z.of_nat (length (file_bytes env p)) ->
  start <= e -> e < st_size env p ->
  exists r bytes,
    media env roots root_index full_path (Some h) = Ok r
    /\ status r = 206
    /\ header r "Content-Range"
       = Some ("bytes " +:+ Py.str_of_int start +:+ "-" +:+ Py.str_of_int e
                        +:+ "/" +:+ Py.str_of_int (st_size env p))
    /\ header r "Content-Length" = Some (Py.str_of_int (e - start + 1))
    /\ body_bytes (body r) = Some bytes
    /\ Z.of_nat (length bytes) = e - start + 1.
Proof.
  intros Hp Hex Hfile Hh Hparse Hsize Hle Hlt.
  pose proof (parse_range_start_nonneg h (st_size env p)) as Hnn.
  rewrite Hparse in Hnn. simpl in Hnn.
  rewrite (media_range _ _ _ _ p) by assumption.
  rewrite Hparse. simpl fst. simpl snd.
  destruct (range_response_headers env p (st_size env p) start e ltac:(lia))
    as (Hst & Hcr & _ & Hcl & Hbody).
  destruct (range_body_length env p start e Hsize Hnn ltac:(lia) Hle)
    as (chunks & Hchunks & Hlen).
  exists (range_response env p (st_size env p) start e), (concat chunks).
  split; [reflexivity|].
  rewrite Hbody, Hchunks.
  repeat split; try assumption. lia.
Qed.

(** X3: for an end past the last byte, with numbers that [str] converts
    (the end and the announced length have at most [MAX_STR_DIGITS] digits;
    the start and the size are below the end), the headers carry the end as
    it was sent: the Content-Length header announces [end - start + 1] bytes
    and the body holds [size - start], which is less. *)
Lemma media_range_overshoot env roots root_index full_path p h start e :
  normalize_root_and_rel env roots root_index full_path = Ok p ->
  path_exists env p = true ->
  is_file env p = true ->
  h <> ""%string ->
  parse_range h (st_size env p) = (start, e) ->
  st_size env p = Z.of_nat (length (file_bytes env p)) ->
  start < st_size env p -> st_size env p <= e ->
  Py.str_returns e = true ->
  Py.str_returns (e - start + 1) = true ->
  exists r bytes,
    media env roots root_index full_path (Some h) = Ok r
    /\ status r = 206
    /\ header r "Content-Range"
       = Some ("bytes " +:+ Py.str_of_int start +:+ "-" +:+ Py.str_of_int e
                        +:+ "/" +:+ Py.str_of_int (st_size env p))
    /\ header r "Content-Length" = Some (Py.str_of_int (e - start + 1))
    /\ body_bytes (body r) = Some bytes
    /\ Z.of_nat (length bytes) = st_size env p - start
    /\ Z.of_nat (length bytes) < e - start + 1.
Proof.
  intros Hp Hex Hfile Hh Hparse Hsize Hlt Hge _ _.
  pose proof (parse_range_start_nonneg h (st_size env p)) as Hnn.
  rewrite Hparse in Hnn. simpl in Hnn.
  rewrite (media_range _ _ _ _ p) by assumption.
  rewrite Hparse. simpl fst. simpl snd.
  destruct (range_response_headers env p (st_size env p) start e Hlt)
    as (Hst & Hcr & _ & Hcl & Hbody).
  destruct (range_body_length env p start e Hsize Hnn Hlt ltac:(lia))
    as (chunks & Hchunks & Hlen).
  exists (range_response env p (st_size env p) start e), (concat chunks).
  split; [reflexivity|].
  rewrite Hbody, Hchunks.
  repeat split; try assumption; lia.
Qed.

(* ===================================================================== *)
(** * The ordering of a listing *)
(* ===================================================================== *)

Section ListSortFacts.
Context {A K : Type} (key : A -> K) (le : K -> K -> bool).

Let R (a b : A) : Prop := le (key a) (key b) = true.

Lemma insert_by_Permutation x l : Permutation (x :: l) (insert_by key le x l).
Proof.
  induction l as [|y r IH]; simpl; [reflexivity|].
  destruct (le (key x) (key y)); [reflexivity|].
  rewrite perm_swap. constructor. exact IH.
Qed.

Lemma list_sort_Permutation l : Permutation l (list_sort key le l).
Proof.
  induction l as [|x l IH]; simpl; [reflexivity|].
  rewrite <- insert_by_Permutation. constructor. exact IH.
Qed.

Hypothesis le_total : forall a b, le a b = false -> le b a = true.

Lemma insert_by_HdRel a x l :
  R a x -> HdRel R a l -> HdRel R a (insert_by key le x l).
Proof.
  intros Hax Hal. destruct l as [|y r]; simpl; [constructor; exact Hax|].
  destruct (le (key x) (key y)); constructor; [exact Hax|].
  inversion Hal; assumption.
Qed.

Lemma insert_by_Sorted x l : Sorted R l -> Sorted R (insert_by key le x l).
Proof.
  induction 1 as [|y r Hr IH Hhd]; simpl; [repeat constructor|].
  destruct (le (key x) (key y)) eqn:Hxy.
  - constructor; [constructor; assumption|]. constructor. exact Hxy.
  - constructor; [exact IH|].
    apply insert_by_HdRel; [|exact Hhd]. apply le_total. exact Hxy.
Qed.

Lemma list_sort_Sorted l : Sorted R (list_sort key le l).
Proof.
  induction l as [|x l IH]; simpl; [constructor|].
  apply insert_by_Sorted. exact IH.
Qed.

Hypothesis le_trans : forall a b c, le a b = true -> le b c = true -> le a c = true.

Lemma list_sort_StronglySorted l : StronglySorted R (list_sort key le l).
Proof.
  apply Sorted_StronglySorted; [|apply list_sort_Sorted].
  intros a b c. unfold R. apply le_trans.
Qed.

(** Stability: the entries that have a given key come out in the order in
    which they came in. *)
Hypothesis le_refl : forall a, le a a = true.
Variable same : K -> K -> bool.
Hypothesis same_spec : forall a b, same a b = true <-> a = b.

Lemma insert_by_filter_key k x l :
  List.filter (fun y => same (key y) k) (insert_by key le x l)
  = List.filter (fun y => same (key y) k) (x :: l).
Proof.
  induction l as [|y r IH]; [reflexivity|].
  cbn [insert_by].
  destruct (le (key x) (key y)) eqn:Hxy; [reflexivity|].
  cbn [List.filter] in *. rewrite IH.
  destruct (same (key x) k) eqn:Hx; [|reflexivity].
  destruct (same (key y) k) eqn:Hy; [|reflexivity].
  apply same_spec in Hx, Hy. rewrite Hx, Hy, le_refl in Hxy. discriminate.
Qed.

Lemma list_sort_stable k l :
  List.filter (fun y => same (key y) k) (list_sort key le l)
  = List.filter (fun y => same (key y) k) l.
Proof.
  induction l as [|x l IH]; [reflexivity|].
  cbn [list_sort fold_right]. rewrite insert_by_filter_key.
  cbn [List.filter]. unfold list_sort in IH. rewrite IH. reflexivity.
Qed.

(** The stable sort is unique when the keys are totally ordered: a list that
    is ordered by key and keeps, for every key, the entries of [l] with that
    key in their order is [list_sort l], whichever algorithm built it. *)
Hypothesis le_antisym : forall a b, le a b = true -> le b a = true -> a = b.

Lemma Sorted_head_least a l x : Sorted R (a :: l) -> In x (a :: l) -> R a x.
Proof.
  intros Hs Hx. apply Sorted_StronglySorted in Hs.
  - destruct Hx as [<- | Hx]; [apply le_refl|].
    apply StronglySorted_inv in Hs as [_ Hall].
    rewrite List.Forall_forall in Hall. exact (Hall x Hx).
  - intros u v w. unfold R. apply le_trans.
Qed.

Lemma stable_sorted_unique l1 l2 :
  Sorted R l1 -> Sorted R l2 ->
  (forall k, List.filter (fun y => same (key y) k) l1
             = List.filter (fun y => same (key y) k) l2) ->
  l1 = l2.
Proof.
  revert l2. induction l1 as [|a l1 IH]; intros l2 Hs1 Hs2 Hf.
  - destruct l2 as [|b l2]; [reflexivity|].
    specialize (Hf (key b)). cbn [List.filter] in Hf.
    rewrite (proj2 (same_spec (key b) (key b)) eq_refl) in Hf. discriminate.
  - destruct l2 as [|b l2].
    { specialize (Hf (key a)). cbn [List.filter] in Hf.
      rewrite (proj2 (same_spec (key a) (key a)) eq_refl) in Hf. discriminate. }
    assert (key a = key b) as Hk.
    { apply le_antisym.
      - apply (Sorted_head_least a l1 b Hs1).
        apply (proj1 (List.filter_In (fun y => same (key y) (key b)) b (a :: l1))).
        rewrite (Hf (key b)). cbn [List.filter].
        rewrite (proj2 (same_spec (key b) (key b)) eq_refl). left. reflexivity.
      - apply (Sorted_head_least b l2 a Hs2).
        apply (proj1 (List.filter_In (fun y => same (key y) (key a)) a (b :: l2))).
        rewrite <- (Hf (key a)). cbn [List.filter].
        rewrite (proj2 (same_spec (key a) (key a)) eq_refl). left. reflexivity. }
    assert (a = b) as Hab.
    { specialize (Hf (key a)). cbn [List.filter] in Hf.
      rewrite <- Hk in Hf.
      rewrite (proj2 (same_spec (key a) (key a)) eq_refl) in Hf.
      congruence. }
    subst b. f_equal. apply IH.
    + apply Sorted_inv in Hs1. tauto.
    + apply Sorted_inv in Hs2. tauto.
    + intros k. specialize (Hf k). cbn [List.filter] in Hf.
      destruct (same (key a) k); congruence.
Qed.

Lemma list_sort_unique l out :
  Sorted R out ->
  (forall k, List.filter (fun y => same (key y) k) out
             = List.filter (fun y => same (key y) k) l) ->
  out = list_sort key le l.
Proof.
  intros Hs Hf. apply stable_sorted_unique; [exact Hs | apply list_sort_Sorted |].
  intros k. rewrite Hf. symmetry. apply list_sort_stable.
Qed.
End ListSortFacts.

Lemma string_compare_OT a b : String.compare a b = OrdersEx.String_as_OT.compare a b.
Proof. reflexivity. Qed.

Lemma string_leb_iff a b :
  String.leb a b = true <-> (a = b \/ OrdersEx.String_as_OT.lt a b).
Proof.
  unfold String.leb. rewrite string_compare_OT.
  destruct (OrdersEx.String_as_OT.compare_spec a b) as [Heq | Hlt | Hgt].
  - split; auto.
  - split; auto.
  - split; [discriminate|].
    intros [-> | Hlt].
    + exfalso. eapply (StrictOrder_Irreflexive (R := OrdersEx.String_as_OT.lt)); eauto.
    + exfalso. eapply (StrictOrder_Irreflexive (R := OrdersEx.String_as_OT.lt)).
      eapply (StrictOrder_Transitive (R := OrdersEx.String_as_OT.lt)); eauto.
Qed.

Lemma string_leb_refl a : String.leb a a = true.
Proof. apply string_leb_iff. left. reflexivity. Qed.

Lemma string_leb_trans a b c :
  String.leb a b = true -> String.leb b c = true -> String.leb a c = true.
Proof.
  rewrite !string_leb_iff. intros [-> | Hab] [-> | Hbc]; auto.
  right. eapply (StrictOrder_Transitive (R := OrdersEx.String_as_OT.lt)); eauto.
Qed.

Lemma string_leb_false a b : String.leb a b = false -> String.leb b a = true.
Proof.
  intros H. destruct (String.leb_total a b) as [Hab | Hba]; [congruence | exact Hba].
Qed.

Lemma StronglySorted_weaken {A} (R R' : A -> A -> Prop) l :
  (forall a b, R a b -> R' a b) -> StronglySorted R l -> StronglySorted R' l.
Proof.
  intros HR. induction 1 as [|a l Hl IH Hall]; constructor; [exact IH|].
  eapply Forall_impl; [exact Hall | auto].
Qed.

Lemma Z_geb_sorted {A} (key : A -> Z) l :
  StronglySorted (fun a b => key b <= key a) (list_sort key (fun a b => Z.leb b a) l).
Proof.
  eapply StronglySorted_weaken;
    [| apply (list_sort_StronglySorted key (fun a b => Z.leb b a))].
  - intros a b H. apply Z.leb_le. exact H.
  - intros a b H. apply Z.leb_gt in H. apply Z.leb_le. lia.
  - intros a b c H1 H2. apply Z.leb_le in H1, H2. apply Z.leb_le. lia.
Qed.


(** X4: for each of the three sort keys, entries with the same key keep the
    order [list_dir] gave them. *)
Lemma api_list_order_stable (lower : string -> string) (items : list Entry) :
  (forall k,
      List.filter (fun x => String.eqb (lower (name x)) k)
        (api_list_order lower (Some "name"%string) items)
      = List.filter (fun x => String.eqb (lower (name x)) k) items)
  /\ (forall k,
      List.filter (fun x => Z.eqb (mtime x) k)
        (api_list_order lower (Some "date"%string) items)
      = List.filter (fun x => Z.eqb (mtime x) k) items)
  /\ (forall k,
      List.filter (fun x => Z.eqb (size x) k)
        (api_list_order lower (Some "size"%string) items)
      = List.filter (fun x => Z.eqb (size x) k) items).
Proof.
  unfold api_list_order, sort_items. simpl String.eqb. cbv iota.
  repeat split; intros k.
  - apply (list_sort_stable (fun x => lower (name x)) String.leb string_leb_refl
             String.eqb String.eqb_eq).
  - apply (list_sort_stable mtime (fun a b => Z.leb b a)
             (fun a => Z.leb_refl a) Z.eqb Z.eqb_eq).
  - apply (list_sort_stable size (fun a b => Z.leb b a)
             (fun a => Z.leb_refl a) Z.eqb Z.eqb_eq).
Qed.

(** Any other sort key leaves the entries as [list_dir] returned them. *)
Lemma sort_items_other_key (lower : string -> string) sort items :
  sort <> "name"%string -> sort <> "date"%string -> sort <> "size"%string ->
  sort_items lower sort items = items.
Proof.
  intros H1 H2 H3. unfold sort_items.
  apply String.eqb_neq in H1, H2, H3. rewrite H1, H2, H3. reflexivity.
Qed.

Example api_list_by_name :
  List.map name (api_list_order ascii_lower None Demo.entries)
  = ["A.txt"; "a.txt"; "b.txt"; "c"]%string.
Proof. reflexivity. Qed.
Example api_list_by_date :
  List.map name (api_list_order ascii_lower (Some "date"%string) Demo.entries)
  = ["A.txt"; "a.txt"; "c"; "b.txt"]%string.
Proof. reflexivity. Qed.
Example api_list_by_size :
  List.map name (api_list_order ascii_lower (Some "size"%string) Demo.entries)
  = ["b.txt"; "c"; "a.txt"; "A.txt"]%string.
Proof. reflexivity. Qed.

(* ===================================================================== *)
(** * api_thumb *)
(* ===================================================================== *)

(** The two HTTP errors that [normalize_root_and_rel] raises itself. *)
Lemma normalize_root_and_rel_errors env roots root_index rel_path e :
  normalize_root_and_rel env roots root_index rel_path = Raise e ->
  e = InvalidRoot \/ e = PathEscape.
Proof.
  unfold normalize_root_and_rel.
  destruct (Py.index roots root_index); [|intros [= <-]; auto].
  destruct (negb _); [intros [= <-]; auto | discriminate].
Qed.

(** The generation steps, run as the handler runs them, produce
    [generated_thumb], store it under the key and only add to the trace. *)
Lemma generation_steps env key p st :
  exists evs,
    (let* mime := sniff env p in
     let* data := (if is_image env p mime then image_branch env p
                   else video_branch env p) in
     finish_thumb env key data) st
    = (Ok (jpeg_response (generated_thumb env p)),
       mkState (<[key := generated_thumb env p]> (thumb_cache st)) (trace st ++ evs)).
Proof.
  unfold generated_thumb, generated_data, sniff, image_branch, video_branch,
    frame_branch, finish_thumb, bind, emit, ret, cache_store.
  destruct (is_file env p) eqn:Hfile; simpl.
  - destruct (is_image env p (Some (magic_from_file env (path_str p)))) eqn:Himg; simpl.
    + destruct (image_thumbnail env p) as [[|b d]|]; simpl;
        rewrite <- ?app_assoc; eexists; reflexivity.
    + destruct (ffmpeg_frame env (path_str p)) as [[|b o]|]; simpl;
        [| destruct (frame_thumbnail env (b :: o)) as [[|b' d]|]; simpl |];
        rewrite <- ?app_assoc; eexists; reflexivity.
  - destruct (is_image env p None) eqn:Himg; simpl.
    + destruct (image_thumbnail env p) as [[|b d]|]; simpl;
        rewrite <- ?app_assoc; eexists; reflexivity.
    + destruct (ffmpeg_frame env (path_str p)) as [[|b o]|]; simpl;
        [| destruct (frame_thumbnail env (b :: o)) as [[|b' d]|]; simpl |];
        rewrite <- ?app_assoc; eexists; reflexivity.
Qed.

(** The handler, case by case. *)
Lemma api_thumb_hit env roots root_index path st data :
  thumb_cache st !! cache_key root_index path = Some data ->
  api_thumb env roots root_index path st = (Ok (jpeg_response data), st).
Proof.
  intros H. unfold api_thumb, bind, get_cache. simpl. rewrite H. reflexivity.
Qed.

Lemma api_thumb_miss_rejected env roots root_index path st e :
  thumb_cache st !! cache_key root_index path = None ->
  normalize_root_and_rel env roots root_index path = Raise e ->
  api_thumb env roots root_index path st = (Raise e, st).
Proof.
  intros H Hn. unfold api_thumb, bind, get_cache, lift. simpl.
  rewrite H. simpl. rewrite Hn. reflexivity.
Qed.

Lemma api_thumb_miss_absent env roots root_index path st p :
  thumb_cache st !! cache_key root_index path = None ->
  normalize_root_and_rel env roots root_index path = Ok p ->
  path_exists env p = false ->
  api_thumb env roots root_index path st = (Raise NotFound, st).
Proof.
  intros H Hn Hex. unfold api_thumb, bind, get_cache, lift. simpl.
  rewrite H. simpl. rewrite Hn, Hex. reflexivity.
Qed.

Lemma api_thumb_miss_generates env roots root_index path st p :
  thumb_cache st !! cache_key root_index path = None ->
  normalize_root_and_rel env roots root_index path = Ok p ->
  path_exists env p = true ->
  exists evs,
    api_thumb env roots root_index path st
    = (Ok (jpeg_response (generated_thumb env p)),
       mkState (<[cache_key root_index path := generated_thumb env p]> (thumb_cache st))
               (trace st ++ evs)).
Proof.
  intros H Hn Hex.
  destruct (generation_steps env (cache_key root_index path) p st) as [evs Hgen].
  exists evs. rewrite <- Hgen.
  unfold api_thumb, get_cache, lift.
  unfold bind at 1. simpl. rewrite H.
  unfold bind at 1. rewrite Hn, Hex. reflexivity.
Qed.

(** C3 as stated fails: a request with a root index out of range is answered
    with the 400 of [normalize_root_and_rel], which is not NotFound. *)
Lemma api_thumb_error_other_than_NotFound :
  exists e,
    fst (api_thumb Demo.env Demo.roots 7 "clip.mp4" Demo.empty_state) = Raise e
    /\ e <> NotFound
    /\ status_code e = 400.
Proof.
  exists InvalidRoot. split; [vm_compute; reflexivity|].
  split; [discriminate | reflexivity].
Qed.

Example api_thumb_escape_visible :
  fst (api_thumb Demo.env Demo.roots 0 "../../etc/passwd" Demo.empty_state)
  = Raise PathEscape.
Proof. vm_compute. reflexivity. Qed.

(** A cached key is served even when its file is gone. *)
Example api_thumb_stale_hit :
  path_exists Demo.env (mkPath "/" ["srv"; "media"; "gone.jpg"]%string) = false
  /\ fst (api_thumb Demo.env Demo.roots 0 "gone.jpg" Demo.stale_state)
     = Ok (jpeg_response (Demo.jpeg Byte.x03)).
Proof. split; vm_compute; reflexivity. Qed.

(** The generated bytes are the placeholder or the non-empty output of a
    successful decode. *)
Lemma generated_thumb_cases env p :
  generated_thumb env p = placeholder env
  \/ (generated_thumb env p <> [] /\ generated_data env p = Some (generated_thumb env p)).
Proof.
  unfold generated_thumb.
  destruct (generated_data env p) as [[|b d]|];
    [left; reflexivity | right; split; [discriminate | reflexivity] | left; reflexivity].
Qed.

(** The answer of the handler as a function of the cache, of the resolution
    of the path, of its existence and of the generated bytes. *)
Lemma api_thumb_result env roots root_index path st :
  fst (api_thumb env roots root_index path st)
  = match thumb_cache st !! cache_key root_index path with
    | Some data => Ok (jpeg_response data)
    | None =>
        match normalize_root_and_rel env roots root_index path with
        | Raise e => Raise e
        | Ok p =>
            if path_exists env p
            then Ok (jpeg_response (generated_thumb env p))
            else Raise NotFound
        end
    end.
Proof.
  destruct (thumb_cache st !! cache_key root_index path) as [data|] eqn:Hc.
  - rewrite (api_thumb_hit _ _ _ _ _ data) by exact Hc. reflexivity.
  - destruct (normalize_root_and_rel env roots root_index path) as [p|e] eqn:Hn.
    + destruct (path_exists env p) eqn:Hex.
      * destruct (api_thumb_miss_generates env roots root_index path st p Hc Hn Hex)
          as [evs ->]. reflexivity.
      * rewrite (api_thumb_miss_absent _ _ _ _ _ p) by assumption. reflexivity.
    + rewrite (api_thumb_miss_rejected _ _ _ _ _ e) by assumption. reflexivity.
Qed.

(** A type that starts with ["image"] is not the empty string. *)
Lemma startswith_image_nonempty m :
  Py.startswith m "image" = true -> Py.falsy m = false.
Proof. destruct m; [discriminate | reflexivity]. Qed.

(** What the generation steps give for a file sniffed as an image, and for
    anything else. *)
Lemma generated_thumb_image env p :
  is_file env p = true ->
  Py.startswith (magic_from_file env (path_str p)) "image" = true ->
  generated_thumb env p
  = match image_thumbnail env p with
    | Some (b :: x) => b :: x
    | _ => placeholder env
    end.
Proof.
  intros Hfile Hm. unfold generated_thumb, generated_data, is_image.
  rewrite Hfile, Hm, (startswith_image_nonempty _ Hm). reflexivity.
Qed.

Lemma generated_thumb_other env p :
  is_file env p = false
  \/ Py.startswith (magic_from_file env (path_str p)) "image" = false ->
  generated_thumb env p
  = match ffmpeg_frame env (path_str p) with
    | Some (b :: out) =>
        match frame_thumbnail env (b :: out) with
        | Some (c :: x) => c :: x
        | _ => placeholder env
        end
    | _ => placeholder env
    end.
Proof.
  intros H. unfold generated_thumb, generated_data, is_image.
  assert ((if is_file env p
           then is_file env p
                && (negb (Py.falsy (magic_from_file env (path_str p)))
                    && Py.startswith (magic_from_file env (path_str p)) "image")
           else is_file env p && false) = false) as Himg.
  { destruct H as [-> | Hm]; [reflexivity|].
    destruct (is_file env p); [|reflexivity].
    rewrite Hm, andb_false_r. reflexivity. }
  destruct (is_file env p); cbn [is_image] in *; rewrite Himg;
    destruct (ffmpeg_frame env (path_str p)) as [[|b out]|]; reflexivity.
Qed.

(** C3, amended: a cached key is answered with the cached bytes, and the
    state is left as it is.  On a miss the request fails with InvalidRoot or
    PathEscape when [normalize_root_and_rel] rejects it (the root index being
    one that the key can be formatted from), and with NotFound exactly when
    the path resolves to a target that does not exist.  On a miss whose
    target exists the answer is JPEG bytes, and it is decided by what the
    guarded step gives once the file is sniffed: for a regular file whose
    sniffed type starts with ["image"], the non-empty bytes of the decode,
    and the placeholder when the decode raised or gave nothing; for anything
    else, with the output of the child at hand, the non-empty bytes decoded
    from it, and the placeholder when spawning or communicating raised, when
    the child wrote nothing, and when its output could not be decoded.
    Nothing is said of a run in which a call outside the [try] blocks raises
    or the child does not end. *)
Theorem api_thumb_outcomes env roots root_index path st :
  (forall data,
      thumb_cache st !! cache_key root_index path = Some data ->
      api_thumb env roots root_index path st = (Ok (jpeg_response data), st))
  /\ (forall e,
        Py.str_returns root_index = true ->
        thumb_cache st !! cache_key root_index path = None ->
        normalize_root_and_rel env roots root_index path = Raise e ->
        fst (api_thumb env roots root_index path st) = Raise e
        /\ (e = InvalidRoot \/ e = PathEscape))
  /\ (fst (api_thumb env roots root_index path st) = Raise NotFound
      <-> thumb_cache st !! cache_key root_index path = None
          /\ exists p, normalize_root_and_rel env roots root_index path = Ok p
                       /\ path_exists env p = false)
  /\ (forall p decoded,
        thumb_cache st !! cache_key root_index path = None ->
        normalize_root_and_rel env roots root_index path = Ok p ->
        path_exists env p = true ->
        is_file env p = true ->
        Py.startswith (magic_from_file env (path_str p)) "image" = true ->
        image_thumbnail env p = decoded ->
        fst (api_thumb env roots root_index path st)
        = Ok (jpeg_response match decoded with
                            | Some (b :: x) => b :: x
                            | _ => placeholder env
                            end))
  /\ (forall p out,
        thumb_cache st !! cache_key root_index path = None ->
        normalize_root_and_rel env roots root_index path = Ok p ->
        path_exists env p = true ->
        is_file env p = false
        \/ Py.startswith (magic_from_file env (path_str p)) "image" = false ->
        ffmpeg_frame env (path_str p) = out ->
        fst (api_thumb env roots root_index path st)
        = Ok (jpeg_response match out with
                            | Some (b :: o) =>
                                match frame_thumbnail env (b :: o) with
                                | Some (c :: x) => c :: x
                                | _ => placeholder env
                                end
                            | _ => placeholder env
                            end)).
Proof.
  split; [intros data Hc; apply api_thumb_hit; exact Hc|].
  split.
  { intros e _ Hc Hn.
    rewrite (api_thumb_miss_rejected _ _ _ _ _ e Hc Hn).
    split; [reflexivity | exact (normalize_root_and_rel_errors _ _ _ _ _ Hn)]. }
  split.
  { rewrite api_thumb_result.
    destruct (thumb_cache st !! cache_key root_index path).
    { split; [discriminate | intros [? _]; discriminate]. }
    destruct (normalize_root_and_rel env roots root_index path) as [p|e'] eqn:Hn.
    + destruct (path_exists env p) eqn:Hex.
      * split; [discriminate|]. intros [_ (q & [= <-] & Hq)]. congruence.
      * split; [|reflexivity]. intros _. split; [reflexivity|]. exists p. auto.
    + split.
      * intros [= ->].
        destruct (normalize_root_and_rel_errors _ _ _ _ _ Hn); discriminate.
      * intros [_ (q & Hq & _)]. discriminate. }
  split.
  - intros p decoded Hc Hn Hex Hfile Hm <-.
    rewrite api_thumb_result, Hc, Hn, Hex.
    rewrite generated_thumb_image by assumption. reflexivity.
  - intros p out Hc Hn Hex Hother <-.
    rewrite api_thumb_result, Hc, Hn, Hex.
    rewrite generated_thumb_other by assumption. reflexivity.
Qed.

(** Decode errors, subprocess failures and corrupt output end in the
    placeholder. *)
Lemma generated_thumb_fallback env p :
  generated_data env p = None \/ generated_data env p = Some [] ->
  generated_thumb env p = placeholder env.
Proof. unfold generated_thumb. intros [-> | ->]; reflexivity. Qed.

Example api_thumb_broken_image :
  fst (api_thumb Demo.env Demo.roots 0 "broken.jpg" Demo.empty_state)
  = Ok (jpeg_response (placeholder Demo.env)).
Proof. vm_compute. reflexivity. Qed.

Example api_thumb_empty_file :
  fst (api_thumb Demo.env Demo.roots 0 "empty.bin" Demo.empty_state)
  = Ok (jpeg_response (placeholder Demo.env)).
Proof. vm_compute. reflexivity. Qed.

(** C7: two calls in a row for the same key give the same answer; the second
    call does no external work at all (the trace does not grow) and leaves
    the cache as it is; and when the first call returns bytes they are in the
    cache under the key when it returns, so that the second call is served
    from the cache.  A first call that finds the key cached returns the
    stored bytes and leaves the state untouched.  A first call that misses
    the cache, for a path that resolves to an existing target, returns the
    bytes the generation steps have given, or the placeholder in their place,
    and has stored them under the key when it returns; the second call
    returns these bytes and changes nothing. *)
Theorem api_thumb_twice env roots root_index path st :
  fst (api_thumb env roots root_index path
         (snd (api_thumb env roots root_index path st)))
  = fst (api_thumb env roots root_index path st)
  /\ trace (snd (api_thumb env roots root_index path
                   (snd (api_thumb env roots root_index path st))))
     = trace (snd (api_thumb env roots root_index path st))
  /\ thumb_cache (snd (api_thumb env roots root_index path
                         (snd (api_thumb env roots root_index path st))))
     = thumb_cache (snd (api_thumb env roots root_index path st))
  /\ (forall r, fst (api_thumb env roots root_index path st) = Ok r ->
        exists data,
          r = jpeg_response data
          /\ thumb_cache (snd (api_thumb env roots root_index path st))
               !! cache_key root_index path = Some data)
  /\ (forall data,
        thumb_cache st !! cache_key root_index path = Some data ->
        api_thumb env roots root_index path st = (Ok (jpeg_response data), st))
  /\ (forall p generated,
        thumb_cache st !! cache_key root_index path = None ->
        normalize_root_and_rel env roots root_index path = Ok p ->
        path_exists env p = true ->
        generated_data env p = generated ->
        let data := match generated with
                    | Some (b :: x) => b :: x
                    | _ => placeholder env
                    end in
        fst (api_thumb env roots root_index path st) = Ok (jpeg_response data)
        /\ thumb_cache (snd (api_thumb env roots root_index path st))
           = <[cache_key root_index path := data]> (thumb_cache st)
        /\ api_thumb env roots root_index path
             (snd (api_thumb env roots root_index path st))
           = (Ok (jpeg_response data), snd (api_thumb env roots root_index path st))).
Proof.
  assert (forall p generated,
        thumb_cache st !! cache_key root_index path = None ->
        normalize_root_and_rel env roots root_index path = Ok p ->
        path_exists env p = true ->
        generated_data env p = generated ->
        let data := match generated with
                    | Some (b :: x) => b :: x
                    | _ => placeholder env
                    end in
        fst (api_thumb env roots root_index path st) = Ok (jpeg_response data)
        /\ thumb_cache (snd (api_thumb env roots root_index path st))
           = <[cache_key root_index path := data]> (thumb_cache st)
        /\ api_thumb env roots root_index path
             (snd (api_thumb env roots root_index path st))
           = (Ok (jpeg_response data), snd (api_thumb env roots root_index path st)))
    as Hmiss.
  { intros p generated Hc Hn Hex <-.
    change (match generated_data env p with
            | Some (b :: x) => b :: x
            | _ => placeholder env
            end) with (generated_thumb env p).
    cbv zeta.
    destruct (api_thumb_miss_generates env roots root_index path st p Hc Hn Hex)
      as [evs Hgen].
    rewrite !Hgen. cbn [fst snd thumb_cache].
    split; [reflexivity|]. split; [reflexivity|].
    apply api_thumb_hit. cbn [thumb_cache]. apply lookup_insert_eq. }
  assert (forall data,
        thumb_cache st !! cache_key root_index path = Some data ->
        api_thumb env roots root_index path st = (Ok (jpeg_response data), st))
    as Hhit by (intros data Hc; apply api_thumb_hit; exact Hc).
  refine (let Hold := _ in
          match Hold with
          | conj H1 (conj H2 (conj H3 H4)) =>
              conj H1 (conj H2 (conj H3 (conj H4 (conj Hhit Hmiss))))
          end).
  clear Hhit Hmiss.
  destruct (thumb_cache st !! cache_key root_index path) as [data|] eqn:Hc.
  { pose proof (api_thumb_hit env roots root_index path st data Hc) as H.
    repeat (rewrite H; cbn [fst snd thumb_cache trace]).
    repeat split. intros r [= <-]. exists data. auto. }
  destruct (normalize_root_and_rel env roots root_index path) as [p|e] eqn:Hn.
  - destruct (path_exists env p) eqn:Hex.
    + destruct (api_thumb_miss_generates env roots root_index path st p Hc Hn Hex)
        as [evs Hgen].
      rewrite !Hgen. cbn [fst snd thumb_cache trace].
      rewrite (api_thumb_hit env roots root_index path _ (generated_thumb env p))
        by (cbn [thumb_cache]; apply lookup_insert_eq).
      cbn [fst snd thumb_cache trace]. repeat split.
      intros r [= <-]. exists (generated_thumb env p).
      split; [reflexivity | apply lookup_insert_eq].
    + pose proof (api_thumb_miss_absent env roots root_index path st p Hc Hn Hex) as H.
      repeat (rewrite H; cbn [fst snd thumb_cache trace]).
      repeat split. discriminate.
  - pose proof (api_thumb_miss_rejected env roots root_index path st e Hc Hn) as H.
    repeat (rewrite H; cbn [fst snd thumb_cache trace]).
    repeat split. discriminate.
Qed.

Example second_call_trace_example :
  trace (snd (api_thumb Demo.env Demo.roots 0 "clip.mp4"
                (snd (api_thumb Demo.env Demo.roots 0 "clip.mp4" Demo.empty_state))))
  = [EvSniff "/srv/media/clip.mp4"; EvSubprocess "/srv/media/clip.mp4";
     EvFrameDecode [Byte.x89; Byte.x50]].
Proof. vm_compute. reflexivity. Qed.

(* ===================================================================== *)
(** * Concurrent requests for one key *)
(* ===================================================================== *)

Lemma subprocess_count_app a b :
  subprocess_count (a ++ b) = (subprocess_count a + subprocess_count b)%nat.
Proof. unfold subprocess_count. rewrite List.filter_app, length_app. reflexivity. Qed.

Lemma pending_count_insert tasks i t t' :
  tasks !! i = Some t ->
  (pending_count (<[i := t']> tasks) + (if is_pending t then 1 else 0)
   = pending_count tasks + (if is_pending t' then 1 else 0))%nat.
Proof.
  unfold pending_count. revert i.
  induction tasks as [|a l IH]; intros i Hi; [discriminate|].
  destruct i as [|i]; simpl in *.
  - injection Hi as ->. destruct (is_pending t), (is_pending t'); simpl; lia.
  - specialize (IH i Hi). destruct (is_pending a); simpl; lia.
Qed.

Ltac count_events :=
  cbn [thumb_cache trace];
  rewrite ?subprocess_count_app;
  repeat match goal with
         | |- context [subprocess_count [?e]] =>
             change (subprocess_count [e]) with (if is_subprocess e then 1%nat else 0%nat);
             cbn [is_subprocess]
         end;
  try lia.

Section LoopFacts.
Variables (env : Env) (roots : list string) (root_index : Z) (path : string).

Abbreviation key := (cache_key root_index path).
Abbreviation ok_task := (task_ok env roots root_index path).
Abbreviation ok_cache := (cache_ok env roots root_index path).
Abbreviation solo := (solo_result env roots root_index path).
Abbreviation step := (task_step env roots root_index path).
Abbreviation lstep := (loop_step env roots root_index path).
Abbreviation run := (run_loop env roots root_index path).
Abbreviation inv := (loop_inv env roots root_index path).

(** The handler with the monad unfolded down to the generation steps. *)
Lemma api_thumb_unfold st :
  api_thumb env roots root_index path st
  = match thumb_cache st !! key with
    | Some data => (Ok (jpeg_response data), st)
    | None =>
        match normalize_root_and_rel env roots root_index path with
        | Raise e => (Raise e, st)
        | Ok p =>
            if negb (path_exists env p) then (Raise NotFound, st)
            else (let* mime := sniff env p in
                  let* data := (if is_image env p mime then image_branch env p
                                else video_branch env p) in
                  finish_thumb env key data) st
        end
    end.
Proof.
  unfold api_thumb. unfold bind at 1. unfold get_cache.
  destruct (thumb_cache st !! key) as [d|]; [reflexivity|].
  unfold bind at 1. unfold lift.
  destruct (normalize_root_and_rel env roots root_index path) as [p|e];
    [|reflexivity].
  destruct (path_exists env p); reflexivity.
Qed.

(** The first step of a task against the handler: either the handler is
    over, or what is left of it is what [task_finish] runs. *)
Lemma task_start_api_thumb st :
  match task_start env roots root_index path st with
  | (Finished r, st') => api_thumb env roots root_index path st = (r, st')
  | (AwaitSpawn p, st1) =>
      api_thumb env roots root_index path st
      = (let* data := frame_branch env (ffmpeg_frame env (path_str p)) in
         finish_thumb env key data) st1
  | _ => False
  end.
Proof.
  rewrite api_thumb_unfold. unfold task_start.
  destruct (thumb_cache st !! key) as [d|]; [reflexivity|].
  destruct (normalize_root_and_rel env roots root_index path) as [p|e];
    [|reflexivity].
  destruct (path_exists env p); cbn [negb]; [|reflexivity].
  match goal with
  | |- context [bind (sniff env p) ?k st] =>
      change (bind (sniff env p) k st)
        with (match sniff env p st with
              | (Ok a, st') => k a st'
              | (Raise e, st') => (Raise e, st')
              end)
  end.
  destruct (sniff env p st) as [[mime|e] st1]; [|reflexivity].
  destruct (is_image env p mime).
  - destruct ((let* data := image_branch env p in
               finish_thumb env key data) st1) as [r st2]. reflexivity.
  - unfold video_branch, emit, bind. reflexivity.
Qed.

Lemma loop_step_single t st :
  lstep ([t], st) 0%nat = ([fst (step t st)], snd (step t st)).
Proof.
  unfold lstep. cbn [fst snd lookup list_lookup].
  destruct (step t st). reflexivity.
Qed.

(** Alone on the loop, a task is the handler. *)
Lemma task_alone st :
  run [0; 0; 0]%nat ([Pending], st)
  = ([Finished (fst (api_thumb env roots root_index path st))],
     snd (api_thumb env roots root_index path st)).
Proof.
  unfold run. cbn [fold_left].
  rewrite loop_step_single. cbn [step].
  pose proof (task_start_api_thumb st) as H.
  destruct (task_start env roots root_index path st) as [[| p | p | r] st1];
    try contradiction.
  - cbn [fst snd]. rewrite !loop_step_single. cbn [step fst snd].
    unfold task_finish. rewrite H.
    destruct ((let* data := frame_branch env (ffmpeg_frame env (path_str p)) in
               finish_thumb env key data) st1) as [r st2].
    reflexivity.
  - cbn [fst snd]. rewrite !loop_step_single. cbn [step fst snd].
    rewrite H. reflexivity.
Qed.

(** The pieces of the handler: what they return, and that none of them but
    [video_branch] starts a child. *)
Lemma sniff_spec p st :
  exists st1,
    sniff env p st
    = (Ok (if is_file env p then Some (magic_from_file env (path_str p)) else None), st1)
    /\ thumb_cache st1 = thumb_cache st
    /\ subprocess_count (trace st1) = subprocess_count (trace st).
Proof.
  unfold sniff, bind, emit, ret. destruct (is_file env p).
  - eexists. split; [reflexivity|]. split; [reflexivity | count_events].
  - eexists. repeat split.
Qed.

Lemma finish_thumb_spec k data st :
  exists st2,
    finish_thumb env k data st
    = (Ok (jpeg_response match data with
                         | Some (b :: d) => b :: d
                         | _ => placeholder env
                         end), st2)
    /\ thumb_cache st2
       = <[k := match data with
                | Some (b :: d) => b :: d
                | _ => placeholder env
                end]> (thumb_cache st)
    /\ subprocess_count (trace st2) = subprocess_count (trace st).
Proof.
  unfold finish_thumb, bind, emit, ret, cache_store.
  destruct data as [[|b d]|]; cbn [no_data thumb_cache trace];
    eexists; (split; [reflexivity|]); (split; [reflexivity | count_events]);
    reflexivity.
Qed.

Lemma image_steps_spec k p st :
  exists st2,
    (let* data := image_branch env p in finish_thumb env k data) st
    = (Ok (jpeg_response match image_thumbnail env p with
                         | Some (b :: d) => b :: d
                         | _ => placeholder env
                         end), st2)
    /\ thumb_cache st2
       = <[k := match image_thumbnail env p with
                | Some (b :: d) => b :: d
                | _ => placeholder env
                end]> (thumb_cache st)
    /\ subprocess_count (trace st2) = subprocess_count (trace st).
Proof.
  unfold image_branch, emit, ret. unfold bind at 1. unfold bind at 1.
  destruct (finish_thumb_spec k (image_thumbnail env p)
              (mkState (thumb_cache st) (trace st ++ [EvImageDecode p])))
    as (st2 & -> & Hc & Ht).
  exists st2. split; [reflexivity|]. split; [exact Hc|].
  rewrite Ht. count_events.
Qed.

Lemma frame_steps_spec k out st :
  exists st2,
    (let* data := frame_branch env out in finish_thumb env k data) st
    = (Ok (jpeg_response match match out with
                               | Some (b :: o) => frame_thumbnail env (b :: o)
                               | _ => None
                               end with
                         | Some (b :: d) => b :: d
                         | _ => placeholder env
                         end), st2)
    /\ thumb_cache st2
       = <[k := match match out with
                      | Some (b :: o) => frame_thumbnail env (b :: o)
                      | _ => None
                      end with
                | Some (b :: d) => b :: d
                | _ => placeholder env
                end]> (thumb_cache st)
    /\ subprocess_count (trace st2) = subprocess_count (trace st).
Proof.
  unfold frame_branch. destruct out as [[|b o]|].
  - unfold ret. unfold bind at 1. apply finish_thumb_spec.
  - unfold emit, ret. unfold bind at 1. unfold bind at 1.
    destruct (finish_thumb_spec k (frame_thumbnail env (b :: o))
                (mkState (thumb_cache st) (trace st ++ [EvFrameDecode (b :: o)])))
      as (st2 & -> & Hc & Ht).
    exists st2. split; [reflexivity|]. split; [exact Hc|].
    rewrite Ht. count_events.
  - unfold ret. unfold bind at 1. apply finish_thumb_spec.
Qed.

Lemma solo_result_generated p :
  normalize_root_and_rel env roots root_index path = Ok p ->
  path_exists env p = true ->
  solo = Ok (jpeg_response (generated_thumb env p)).
Proof. intros Hn Hex. unfold solo_result. rewrite Hn, Hex. reflexivity. Qed.

Lemma cache_ok_stored st st' p :
  normalize_root_and_rel env roots root_index path = Ok p ->
  path_exists env p = true ->
  thumb_cache st' = <[key := generated_thumb env p]> (thumb_cache st) ->
  ok_cache st'.
Proof.
  intros Hn Hex Hc. unfold cache_ok.
  rewrite Hc, lookup_insert_eq. symmetry. apply solo_result_generated; assumption.
Qed.

Lemma cache_ok_same st st' :
  thumb_cache st' = thumb_cache st -> ok_cache st -> ok_cache st'.
Proof. unfold cache_ok. intros ->. auto. Qed.

(** One step of one task keeps the invariant of a task and of the cache,
    and starts a child only when the task leaves [Pending]. *)
Lemma task_step_inv t st t' st' :
  step t st = (t', st') ->
  ok_task t -> ok_cache st ->
  ok_task t' /\ ok_cache st'
  /\ (subprocess_count (trace st') + (if is_pending t' then 1 else 0)
      <= subprocess_count (trace st) + (if is_pending t then 1 else 0))%nat.
Proof.
  intros Hstep Ht Hcache. destruct t as [| p | p | r]; cbn [step] in Hstep.
  - unfold task_start in Hstep.
    destruct (thumb_cache st !! key) as [d|] eqn:Hc.
    { injection Hstep as <- <-. cbn [is_pending task_ok].
      split; [|split; [exact Hcache | lia]].
      unfold cache_ok in Hcache. rewrite Hc in Hcache. exact Hcache. }
    destruct (normalize_root_and_rel env roots root_index path) as [p|e] eqn:Hn.
    2:{ injection Hstep as <- <-. cbn [is_pending task_ok].
        unfold solo_result. rewrite Hn.
        repeat split; [exact Hcache | lia]. }
    destruct (path_exists env p) eqn:Hex; cbn [negb] in Hstep.
    2:{ injection Hstep as <- <-. cbn [is_pending task_ok].
        unfold solo_result. rewrite Hn, Hex.
        repeat split; [exact Hcache | lia]. }
    destruct (sniff_spec p st) as (st1 & Hs & Hc1 & Ht1). rewrite Hs in Hstep.
    destruct (is_image env p _) eqn:Himg.
    + destruct (image_steps_spec key p st1) as (st2 & Hi & Hc2 & Ht2).
      rewrite Hi in Hstep. injection Hstep as <- <-.
      assert (generated_thumb env p
              = match image_thumbnail env p with
                | Some (b :: d) => b :: d
                | _ => placeholder env
                end) as Hgen.
      { unfold generated_thumb, generated_data. rewrite Himg. reflexivity. }
      rewrite <- Hgen in *. cbn [is_pending task_ok].
      split; [symmetry; apply solo_result_generated; assumption|].
      split; [apply (cache_ok_stored st1 st2 p); assumption | lia].
    + unfold emit in Hstep. injection Hstep as <- <-.
      cbn [is_pending task_ok].
      split; [auto|].
      split; [apply (cache_ok_same st); [cbn [thumb_cache]; exact Hc1 | exact Hcache]|].
      count_events.
  - injection Hstep as <- <-. cbn [is_pending task_ok] in *.
    repeat split; try tauto. lia.
  - unfold task_finish in Hstep.
    destruct (frame_steps_spec key (ffmpeg_frame env (path_str p)) st)
      as (st2 & Hf & Hc2 & Ht2).
    rewrite Hf in Hstep. injection Hstep as <- <-.
    cbn [task_ok] in Ht. destruct Ht as (Hn & Hex & Himg).
    assert (generated_thumb env p
            = match match ffmpeg_frame env (path_str p) with
                    | Some (b :: o) => frame_thumbnail env (b :: o)
                    | _ => None
                    end with
              | Some (b :: d) => b :: d
              | _ => placeholder env
              end) as Hgen.
    { unfold generated_thumb, generated_data. rewrite Himg. reflexivity. }
    rewrite <- Hgen in *. cbn [is_pending task_ok].
    split; [symmetry; apply solo_result_generated; assumption|].
    split; [apply (cache_ok_stored st st2 p); assumption | lia].
  - injection Hstep as <- <-. repeat split; try assumption. lia.
Qed.

Lemma loop_step_inv budget sys i :
  inv budget sys -> inv budget (lstep sys i).
Proof.
  intros (Htasks & Hcache & Hcount). unfold loop_step.
  destruct (fst sys !! i) as [t|] eqn:Hi; [|repeat split; assumption].
  destruct (task_step env roots root_index path t (snd sys))
    as [t' st'] eqn:Hstep.
  assert (ok_task t) as Ht.
  { eapply (proj1 (Forall_lookup ok_task (fst sys))); [exact Htasks | exact Hi]. }
  destruct (task_step_inv t (snd sys) t' st' Hstep Ht Hcache) as (Ht' & Hc' & Hn).
  pose proof (pending_count_insert (fst sys) i t t' Hi) as Hp.
  unfold loop_inv. cbn [fst snd].
  split; [apply Forall_insert; assumption|].
  split; [exact Hc'|]. lia.
Qed.

Lemma run_loop_inv budget sched sys :
  inv budget sys -> inv budget (run sched sys).
Proof.
  revert sys. induction sched as [|i sched IH]; intros sys Hinv; [exact Hinv|].
  cbn [run_loop fold_left]. apply IH. apply loop_step_inv. exact Hinv.
Qed.

Lemma pending_count_replicate n : pending_count (replicate n Pending) = n.
Proof.
  unfold pending_count. induction n as [|n IH]; [reflexivity|].
  cbn [replicate List.filter is_pending length]. rewrite IH. reflexivity.
Qed.

Lemma concurrent_requests_inv n st :
  thumb_cache st !! key = None ->
  inv (subprocess_count (trace st) + n) (concurrent_requests n st).
Proof.
  intros Hc. unfold loop_inv, concurrent_requests. cbn [fst snd].
  split; [|split].
  - apply Forall_forall. intros t Ht.
    apply elem_of_replicate in Ht.
    destruct Ht as [-> _]. exact I.
  - unfold cache_ok. rewrite Hc. exact I.
  - rewrite pending_count_replicate. lia.
Qed.
End LoopFacts.




Example concurrent_same_answer :
  fst (run_loop Demo.env Demo.roots 0 "clip.mp4" [0; 1; 0; 1; 0; 1]%nat
         (concurrent_requests 2 Demo.empty_state))
  = [Finished (Ok (jpeg_response (Demo.jpeg Byte.x02)));
     Finished (Ok (jpeg_response (Demo.jpeg Byte.x02)))].
Proof. vm_compute. reflexivity. Qed.

(** A request that starts after another one has finished is served from the
    cache and starts no child. *)
Example sequential_requests_one_child :
  subprocess_count
    (trace (snd (run_loop Demo.env Demo.roots 0 "clip.mp4"
                   [0; 0; 0; 1]%nat
                   (concurrent_requests 2 Demo.empty_state))))
  = 1%nat.
Proof. vm_compute. reflexivity. Qed.


(* ===================================================================== *)
(** * Decimal literals: str and int *)
(* ===================================================================== *)

Ltac eval_digit :=
  match goal with
  | |- context [Py.digit_value ?c] =>
      let v := eval vm_compute in (Py.digit_value c) in
      change (Py.digit_value c) with v
  end.

(** The digits of a decimal numeral, as [scan_digits] reads them. *)
Lemma scan_digits_uint (d acc : Decimal.uint) :
  Py.scan_digits (NilEmpty.string_of_uint d) false (Z.of_N (DecimalPos.Unsigned.of_lu acc))
  = Some (Z.of_N (DecimalPos.Unsigned.of_lu (Decimal.revapp d acc)), EmptyString).
Proof.
  revert acc. induction d; intros acc; cbn [NilEmpty.string_of_uint Decimal.revapp];
    [reflexivity|..].
  all: cbn [Py.scan_digits]; eval_digit; cbv iota; rewrite <- IHd; f_equal;
    cbn [DecimalPos.Unsigned.of_lu]; lia.
Qed.

Lemma uint_head_digit d :
  d <> Decimal.Nil ->
  exists c r v, NilEmpty.string_of_uint d = String c r /\ Py.digit_value c = Some v
                /\ Py.is_space c = false /\ Ascii.eqb c "+" = false /\ Ascii.eqb c "-" = false.
Proof.
  destruct d; [congruence|..]; intros _; cbn [NilEmpty.string_of_uint];
    do 3 eexists; (split; [reflexivity|]); vm_compute; repeat split.
Qed.

Lemma uint_chars_digits d c :
  In c (list_ascii_of_string (NilEmpty.string_of_uint d)) -> Py.digit_value c <> None.
Proof.
  induction d; cbn [NilEmpty.string_of_uint list_ascii_of_string In];
    [tauto | intros [<- | H]; [vm_compute; discriminate | auto] ..].
Qed.

(** In a string of digits every character counts. *)
Lemma count_digits_all_digits s :
  (forall c, In c (list_ascii_of_string s) -> Py.digit_value c <> None) ->
  Py.count_digits s = Py.len s.
Proof.
  unfold Py.len. induction s as [|c r IH]; intros H; [reflexivity|].
  cbn [Py.count_digits String.length].
  destruct (Py.digit_value c) eqn:Hc.
  - rewrite IH by (intros x Hx; apply H; right; exact Hx). lia.
  - exfalso. apply (H c); [left; reflexivity | exact Hc].
Qed.

Lemma int_unsigned_uint d :
  d <> Decimal.Nil ->
  Py.len (NilEmpty.string_of_uint d) <= Py.MAX_STR_DIGITS ->
  Py.int_unsigned (NilEmpty.string_of_uint d) = Some (Z.of_N (Pos.of_uint d)).
Proof.
  intros Hd Hlen. destruct (uint_head_digit d Hd) as (c & r & v & Hs & Hv & _).
  unfold Py.int_unsigned. rewrite Hs, Hv, <- Hs.
  change 0 with (Z.of_N (DecimalPos.Unsigned.of_lu Decimal.Nil)).
  rewrite scan_digits_uint. cbn [Py.skip_spaces Py.falsy].
  rewrite count_digits_all_digits by apply uint_chars_digits.
  destruct (Z.leb_spec (Py.len (NilEmpty.string_of_uint d)) Py.MAX_STR_DIGITS); [|lia].
  rewrite DecimalPos.Unsigned.of_uint_alt. reflexivity.
Qed.

Lemma int_uint d :
  d <> Decimal.Nil ->
  Py.len (NilEmpty.string_of_uint d) <= Py.MAX_STR_DIGITS ->
  Py.int (NilEmpty.string_of_uint d) = Some (Z.of_N (Pos.of_uint d)).
Proof.
  intros Hd Hlen.
  destruct (uint_head_digit d Hd) as (c & r & v & Hs & Hv & Hsp & Hp & Hm).
  unfold Py.int. rewrite Hs. cbn [Py.skip_spaces]. rewrite Hsp, Hp, Hm, <- Hs.
  apply int_unsigned_uint; assumption.
Qed.

(** The numeral of a positive number. *)
Lemma str_of_int_Zpos p :
  Py.str_of_int (Z.pos p) = NilEmpty.string_of_uint (Pos.to_uint p).
Proof.
  unfold Py.str_of_int. cbn [Z.to_int NilZero.string_of_int].
  pose proof (DecimalPos.Unsigned.to_uint_nonnil p) as Hnn.
  unfold NilZero.string_of_uint.
  destruct (Pos.to_uint p); [congruence | reflexivity ..].
Qed.

Lemma str_of_int_Zneg p :
  Py.str_of_int (Z.neg p) = String "-" (Py.str_of_int (Z.pos p)).
Proof. reflexivity. Qed.

(** [int(str(n)) == n], for an [n] that [str] converts. *)
Lemma int_str_of_int (n : Z) :
  Py.str_returns n = true -> Py.int (Py.str_of_int n) = Some n.
Proof.
  unfold Py.str_returns. intros Hn. apply Z.leb_le in Hn.
  destruct n as [|p|p]; [reflexivity|..];
    change (Z.abs _) with (Z.pos p) in Hn.
  - rewrite str_of_int_Zpos in *.
    rewrite int_uint by (try apply DecimalPos.Unsigned.to_uint_nonnil; exact Hn).
    rewrite DecimalPos.Unsigned.of_to. reflexivity.
  - rewrite str_of_int_Zneg, str_of_int_Zpos in *.
    unfold Py.int; cbn [Py.skip_spaces]; change (Py.is_space "-") with false;
      cbv iota; change (Ascii.eqb "-" "+") with false; change (Ascii.eqb "-" "-") with true;
      cbv iota.
    rewrite int_unsigned_uint by (try apply DecimalPos.Unsigned.to_uint_nonnil; exact Hn).
    rewrite DecimalPos.Unsigned.of_to. reflexivity.
Qed.

(** Two integers with the same numeral are equal. *)
Lemma str_of_int_inj (a b : Z) : Py.str_of_int a = Py.str_of_int b -> a = b.
Proof.
  unfold Py.str_of_int. intros H. apply DecimalZ.to_int_inj.
  assert (forall n, NilZero.int_of_string (NilZero.string_of_int (Z.to_int n))
                    = Some (Z.to_int n)) as Hisi.
  { intros n. apply NilZero.isi; destruct n as [|p|p]; cbn [Z.to_int];
      try discriminate; intros [= Hp];
      exact (DecimalPos.Unsigned.to_uint_nonnil p Hp). }
  pose proof (Hisi a) as Ha. rewrite H, Hisi in Ha. congruence.
Qed.

(** ** The digit limit as a bound on the number *)

Lemma usize_nb_digits d : DecimalPos.Unsigned.usize d = N.of_nat (Decimal.nb_digits d).
Proof.
  induction d; cbn [DecimalPos.Unsigned.usize Decimal.nb_digits];
    rewrite ?IHd, ?Nnat.Nat2N.inj_succ; reflexivity.
Qed.

Lemma of_lu_lt d :
  (DecimalPos.Unsigned.of_lu d < 10 ^ DecimalPos.Unsigned.usize d)%N.
Proof.
  induction d; cbn [DecimalPos.Unsigned.of_lu DecimalPos.Unsigned.usize];
    rewrite ?N.pow_succ_r'; lia.
Qed.

Lemma string_of_uint_length d :
  String.length (NilEmpty.string_of_uint d) = Decimal.nb_digits d.
Proof.
  induction d; cbn [NilEmpty.string_of_uint String.length Decimal.nb_digits];
    rewrite ?IHd; reflexivity.
Qed.

(** A numeral without a leading zero lies between two powers of ten. *)
Lemma of_uint_bounds d :
  d <> Decimal.Nil -> Decimal.unorm d = d -> d <> Decimal.zero ->
  (10 ^ (DecimalPos.Unsigned.usize d - 1) <= Pos.of_uint d
   < 10 ^ DecimalPos.Unsigned.usize d)%N.
Proof.
  intros Hnil Hnorm Hzero. split.
  2:{ rewrite DecimalPos.Unsigned.of_uint_alt.
      pose proof (of_lu_lt (Decimal.rev d)) as H.
      rewrite !usize_nb_digits, DecimalFacts.nb_digits_rev in *. exact H. }
  destruct d; try congruence.
  { exfalso. destruct (Decimal.uint_eq_dec d Decimal.Nil) as [->|Hd].
    - apply Hzero. reflexivity.
    - pose proof (DecimalFacts.nb_digits_unorm d Hd) as H.
      change (Decimal.unorm (Decimal.D0 d)) with (Decimal.unorm d) in Hnorm.
      rewrite Hnorm in H. cbn [Decimal.nb_digits] in H. lia. }
  all: cbn [Pos.of_uint DecimalPos.Unsigned.usize];
    rewrite DecimalPos.Unsigned.of_uint_acc_rev;
    replace (N.succ (DecimalPos.Unsigned.usize d) - 1)%N
      with (DecimalPos.Unsigned.usize d) by lia;
    pose proof (N.pow_nonzero 10 (DecimalPos.Unsigned.usize d) ltac:(discriminate));
    nia.
Qed.

Lemma to_uint_unorm p : Decimal.unorm (Pos.to_uint p) = Pos.to_uint p.
Proof.
  rewrite <- DecimalPos.Unsigned.to_of, DecimalPos.Unsigned.of_to. reflexivity.
Qed.

Lemma pos_digits_bounds p :
  10 ^ (Py.len (Py.str_of_int (Z.pos p)) - 1) <= Z.pos p
  < 10 ^ Py.len (Py.str_of_int (Z.pos p)).
Proof.
  rewrite str_of_int_Zpos. unfold Py.len. rewrite string_of_uint_length.
  pose proof (of_uint_bounds (Pos.to_uint p)
                (DecimalPos.Unsigned.to_uint_nonnil p) (to_uint_unorm p)
                (DecimalPos.Unsigned.to_uint_nonzero p)) as H.
  rewrite DecimalPos.Unsigned.of_to, usize_nb_digits in H.
  assert (Decimal.nb_digits (Pos.to_uint p) <> 0%nat) as Hk.
  { intros H0. apply DecimalFacts.nb_digits_0 in H0.
    exact (DecimalPos.Unsigned.to_uint_nonnil p H0). }
  destruct H as [Hlo Hhi].
  apply N2Z.inj_le in Hlo. apply N2Z.inj_lt in Hhi.
  rewrite N2Z.inj_pow in Hlo, Hhi. rewrite N2Z.inj_sub in Hlo by lia.
  rewrite nat_N_Z in *. exact (conj Hlo Hhi).
Qed.

(** [str] converts exactly the integers below [10 ^ MAX_STR_DIGITS] in
    absolute value. *)
Lemma str_returns_iff n :
  Py.str_returns n = true <-> Z.abs n < 10 ^ Py.MAX_STR_DIGITS.
Proof.
  unfold Py.str_returns. rewrite Z.leb_le.
  destruct (Z.abs n) as [|p|p] eqn:Habs; [| |lia].
  - split; intros _; [apply Z.pow_pos_nonneg; unfold Py.MAX_STR_DIGITS; lia|].
    vm_compute. discriminate.
  - pose proof (pos_digits_bounds p) as [Hlo Hhi]. split; intros H.
    + eapply Z.lt_le_trans; [exact Hhi|].
      apply Z.pow_le_mono_r; [lia | exact H].
    + destruct (Z_le_gt_dec (Py.len (Py.str_of_int (Z.pos p))) Py.MAX_STR_DIGITS)
        as [|Hgt]; [assumption|exfalso].
      assert (10 ^ Py.MAX_STR_DIGITS <= 10 ^ (Py.len (Py.str_of_int (Z.pos p)) - 1)).
      { apply Z.pow_le_mono_r; lia. }
      lia.
Qed.

(** The characters of [str(n)], and [split] on strings without the
    separator. *)

Lemma str_of_int_chars n c :
  0 <= n ->
  In c (list_ascii_of_string (Py.str_of_int n)) -> Py.digit_value c <> None.
Proof.
  intros Hn. unfold Py.str_of_int. destruct n as [|p|p]; [| |lia].
  - cbn. intros [<- | []]. vm_compute. discriminate.
  - cbn [Z.to_int NilZero.string_of_int]. unfold NilZero.string_of_uint.
    destruct (Pos.to_uint p) eqn:Hd; rewrite <- ?Hd; try apply uint_chars_digits.
    cbn. intros [<- | []]. vm_compute. discriminate.
Qed.

Lemma str_of_int_nonempty n : Py.falsy (Py.str_of_int n) = false.
Proof.
  unfold Py.str_of_int. destruct n as [|p|p]; [reflexivity| |reflexivity].
  cbn [Z.to_int NilZero.string_of_int]. unfold NilZero.string_of_uint.
  destruct (Pos.to_uint p); reflexivity.
Qed.

Lemma split_no_sep_single sep a :
  ~ In sep (list_ascii_of_string a) -> Py.split sep a = [a].
Proof.
  induction a as [|c a IH]; [reflexivity|].
  cbn [list_ascii_of_string In Py.split]. intros H.
  destruct (Ascii.eqb c sep) eqn:Hc.
  - apply Ascii.eqb_eq in Hc. tauto.
  - rewrite IH by tauto. reflexivity.
Qed.

Lemma split_app_sep sep a b :
  ~ In sep (list_ascii_of_string a) ->
  Py.split sep (a +:+ String sep b) = a :: Py.split sep b.
Proof.
  induction a as [|c a IH]; simpl.
  - intros _. rewrite Ascii.eqb_refl. reflexivity.
  - intros H. destruct (Ascii.eqb c sep) eqn:Hc.
    + apply Ascii.eqb_eq in Hc. tauto.
    + rewrite IH by tauto. reflexivity.
Qed.

Lemma In_chars_app c a b :
  In c (list_ascii_of_string (a +:+ b))
  <-> In c (list_ascii_of_string a) \/ In c (list_ascii_of_string b).
Proof.
  induction a as [|x a IH]; simpl; [tauto|].
  rewrite IH. tauto.
Qed.

Lemma str_of_int_no c n :
  0 <= n -> Py.digit_value c = None -> ~ In c (list_ascii_of_string (Py.str_of_int n)).
Proof. intros Hn Hc H. exact (str_of_int_chars n c Hn H Hc). Qed.


(* ===================================================================== *)
(** * parse_range on the headers a client sends *)
(* ===================================================================== *)


(** X5: a header [<units>=<a>-<b>] written with the decimal numerals of two
    non-negative integers of at most [MAX_STR_DIGITS] digits parses back to
    [(a, b)], whatever the units (they are not looked at) and whatever the
    size of the file. *)
Theorem parse_range_roundtrip (units : string) (a b fsize : Z) :
  ~ In "="%char (list_ascii_of_string units) ->
  0 <= a -> 0 <= b ->
  Py.str_returns a = true -> Py.str_returns b = true ->
  parse_range (units +:+ "=" +:+ Py.str_of_int a +:+ "-" +:+ Py.str_of_int b) fsize
  = (a, b).
Proof.
  intros Hu Ha Hb Hda Hdb. unfold parse_range.
  change (units +:+ "=" +:+ Py.str_of_int a +:+ "-" +:+ Py.str_of_int b)
    with (units +:+ String "=" (Py.str_of_int a +:+ String "-" (Py.str_of_int b))).
  rewrite split_app_sep by exact Hu.
  rewrite split_no_sep_single.
  2:{ rewrite In_chars_app. cbn [list_ascii_of_string In].
      intros [H | [H | H]];
        [revert H; apply str_of_int_no; [exact Ha | reflexivity]
        | discriminate H
        | revert H; apply str_of_int_no; [exact Hb | reflexivity]]. }
  rewrite split_app_sep by (apply str_of_int_no; [exact Ha | reflexivity]).
  rewrite split_no_sep_single by (apply str_of_int_no; [exact Hb | reflexivity]).
  rewrite !str_of_int_nonempty, !int_str_of_int by assumption. reflexivity.
Qed.

(** X6: with the end left out the range runs to the last byte of the file;
    with the start left out it starts at byte 0 and the number is taken as
    the end (it is not read as a suffix length).  The number is not negative
    and has at most [MAX_STR_DIGITS] digits. *)
Theorem parse_range_open_ended (units : string) (n fsize : Z) :
  ~ In "="%char (list_ascii_of_string units) ->
  0 <= n ->
  Py.str_returns n = true ->
  parse_range (units +:+ "=" +:+ Py.str_of_int n +:+ "-") fsize = (n, fsize - 1)
  /\ parse_range (units +:+ "=" +:+ "-" +:+ Py.str_of_int n) fsize = (0, n).
Proof.
  intros Hu Hn Hd. unfold parse_range. split.
  - change (units +:+ "=" +:+ Py.str_of_int n +:+ "-")
      with (units +:+ String "=" (Py.str_of_int n +:+ String "-" "")).
    rewrite split_app_sep by exact Hu.
    rewrite split_no_sep_single.
    2:{ rewrite In_chars_app. cbn [list_ascii_of_string In].
        intros [H | [H | []]];
          [revert H; apply str_of_int_no; [exact Hn | reflexivity] | discriminate H]. }
    rewrite split_app_sep by (apply str_of_int_no; [exact Hn | reflexivity]).
    cbn [Py.split Py.falsy].
    rewrite !str_of_int_nonempty, !int_str_of_int by assumption. reflexivity.
  - change (units +:+ "=" +:+ "-" +:+ Py.str_of_int n)
      with (units +:+ String "=" ("" +:+ String "-" (Py.str_of_int n))).
    rewrite split_app_sep by exact Hu.
    rewrite split_no_sep_single.
    2:{ simpl.
        intros [H | H];
          [discriminate H | revert H; apply str_of_int_no; [exact Hn | reflexivity]]. }
    rewrite split_app_sep by (cbn; tauto).
    rewrite split_no_sep_single by (apply str_of_int_no; [exact Hn | reflexivity]).
    cbn [Py.falsy].
    rewrite !str_of_int_nonempty, !int_str_of_int by assumption. reflexivity.
Qed.

(** A header that does not have exactly one ['='] is the whole file. *)
Lemma parse_range_malformed_shape h fsize :
  length (Py.split "=" h) <> 2%nat -> parse_range h fsize = (0, fsize - 1).
Proof.
  unfold parse_range. destruct (Py.split "=" h) as [|u [|r [|? ?]]]; cbn [length];
    try reflexivity. congruence.
Qed.

Lemma parse_range_witness_units : ~ In "="%char (list_ascii_of_string "bytes").
Proof. simpl. intros H. repeat destruct H as [H | H]; try discriminate H. exact H. Qed.

Lemma parse_range_roundtrip_witness :
  parse_range ("bytes" +:+ "=" +:+ Py.str_of_int 0 +:+ "-" +:+ Py.str_of_int 99) 1000
  = (0, 99).
Proof.
  apply (parse_range_roundtrip "bytes" 0 99 1000);
    [exact parse_range_witness_units | lia | lia | reflexivity | reflexivity].
Defined.

Lemma parse_range_open_ended_witness :
  parse_range ("bytes" +:+ "=" +:+ Py.str_of_int 500 +:+ "-") 1000 = (500, 1000 - 1)
  /\ parse_range ("bytes" +:+ "=" +:+ "-" +:+ Py.str_of_int 500) 1000 = (0, 500).
Proof.
  apply (parse_range_open_ended "bytes" 500 1000);
    [exact parse_range_witness_units | lia | reflexivity].
Defined.

(** X7: for every header the parsed start is not negative, and the parsed end
    is not negative either unless it is the default [size - 1] of an empty
    file. *)
Theorem parse_range_bounds h fsize :
  0 <= fst (parse_range h fsize)
  /\ (0 <= snd (parse_range h fsize) \/ snd (parse_range h fsize) = fsize - 1).
Proof.
  split; [apply parse_range_start_nonneg|].
  unfold parse_range.
  destruct (Py.split "=" h) as [|units [|rng [|? ?]]]; cbn [snd]; auto.
  destruct (Py.split "-" rng) as [|start_s [|end_s [|? ?]]] eqn:Hs; cbn [snd]; auto.
  destruct (if Py.falsy start_s then Some 0 else Py.int start_s) as [start|];
    cbn [snd]; auto.
  destruct (Py.falsy end_s); cbn [snd]; auto.
  destruct (Py.int end_s) as [e|] eqn:Hi; cbn [snd]; auto.
  left. destruct (Z_lt_dec e 0) as [Hneg|]; [|lia].
  exfalso. apply (split_no_sep "-" rng end_s).
  - rewrite Hs. right. left. reflexivity.
  - eapply int_negative_has_minus; eauto.
Qed.

(* ===================================================================== *)
(** * normalize_root_and_rel: which root, which paths *)
(* ===================================================================== *)

(** X8: the request is answered "invalid root index" exactly when the index
    is outside [-len, len); every index inside selects the root at position
    [index mod len], so that a negative index counts from the end. *)
Theorem normalize_root_and_rel_root_selection env roots root_index rel_path :
  (normalize_root_and_rel env roots root_index rel_path = Raise InvalidRoot
   <-> root_index < - Z.of_nat (length roots) \/ Z.of_nat (length roots) <= root_index)
  /\ (- Z.of_nat (length roots) <= root_index < Z.of_nat (length roots) ->
      exists r,
        nth_error roots (Z.to_nat (root_index mod Z.of_nat (length roots))) = Some r
        /\ Py.index roots root_index = Some r
        /\ normalize_root_and_rel env roots root_index ""
           = Ok (resolve env (parse_path r))).
Proof.
  split.
  { rewrite <- index_None_iff. unfold normalize_root_and_rel.
    destruct (Py.index roots root_index) as [r|]; [|tauto].
    split; [|discriminate]. destruct (negb _); discriminate. }
  intros Hin.
  assert (exists r, Py.index roots root_index = Some r) as [r Hr].
  { destruct (Py.index roots root_index) as [r|] eqn:Hi; [eauto|].
    apply index_None_iff in Hi. lia. }
  exists r. split; [|split; [exact Hr|]].
  - unfold Py.index in Hr.
    destruct (root_index <? 0) eqn:Hneg.
    + assert (root_index mod Z.of_nat (length roots)
              = root_index + Z.of_nat (length roots)) as ->.
      { symmetry. apply (Z.mod_unique_pos _ _ (-1)); lia. }
      destruct (_ && _); [exact Hr | discriminate].
    + rewrite Z.mod_small by lia.
      destruct (_ && _); [exact Hr | discriminate].
  - apply normalize_root_and_rel_root_itself. exact Hr.
Qed.

(** A path that leaves a sub-directory and comes back stays inside the root. *)
Lemma normalize_root_and_rel_accepts_contained_witness :
  normalize_root_and_rel Demo.env Demo.roots 0 "sub/../clip.mp4"
  = Ok (resolve Demo.env (joinpath (parse_path "/srv/media") "sub/../clip.mp4")).
Proof.
  apply (normalize_root_and_rel_accepts_contained Demo.env Demo.roots 0
           "sub/../clip.mp4" "/srv/media");
    [reflexivity | discriminate | reflexivity].
Defined.

Lemma collapse_no_dotdot acc m :
  Forall (fun x => x <> ".."%string) m -> collapse acc m = rev acc ++ m.
Proof.
  revert acc. induction m as [|x m IH]; intros acc Hm; cbn [collapse].
  - rewrite app_nil_r. reflexivity.
  - apply Forall_cons in Hm as [Hx Hm]. apply String.eqb_neq in Hx. rewrite Hx.
    rewrite IH by exact Hm. cbn [rev]. rewrite <- app_assoc. reflexivity.
Qed.

Lemma collapse_app_no_dotdot acc l m :
  Forall (fun x => x <> ".."%string) m -> collapse acc (l ++ m) = collapse acc l ++ m.
Proof.
  revert acc. induction l as [|x l IH]; intros acc Hm; cbn [app collapse].
  - apply collapse_no_dotdot. exact Hm.
  - destruct (String.eqb x ".."); apply IH; exact Hm.
Qed.

Lemma parts_prefix_app l m : parts_prefix l (l ++ m) = true.
Proof.
  induction l as [|x l IH]; [reflexivity|].
  cbn [app parts_prefix]. rewrite String.eqb_refl. exact IH.
Qed.

Lemma path_anchor_absolute r :
  Py.startswith r "/" = true -> path_anchor r <> ""%string.
Proof.
  destruct r as [|c r]; [discriminate|]. unfold Py.startswith.
  change (String.prefix "/" (String c r))
    with (if ascii_dec "/" c then String.prefix "" r else false).
  destruct (ascii_dec "/" c) as [<-|]; [|discriminate]. intros _.
  cbn [path_anchor]. destruct r as [|c1 [|c2 r]]; [discriminate| |].
  - destruct (ascii_dec c1 "/") as [->|]; [discriminate|].
    destruct c1 as [[] [] [] [] [] [] [] []]; discriminate.
  - destruct c1 as [[] [] [] [] [] [] [] []]; try discriminate.
    destruct c2 as [[] [] [] [] [] [] [] []]; discriminate.
Qed.

(** Every root that passed the check made at load time starts with ['/']. *)
Lemma roots_absolute_index roots root_index r :
  roots_absolute roots = true ->
  Py.index roots root_index = Some r ->
  Py.startswith r "/" = true.
Proof.
  unfold roots_absolute, Py.index. intros Hall Hr.
  destruct (_ && _); [|discriminate].
  apply nth_error_In in Hr.
  rewrite forallb_forall in Hall. exact (Hall r Hr).
Qed.

(** X9: take roots that passed the check made at load time (they are
    absolute) and a relative path that does not start with ['/'] and has no
    [".."] component.  When the two calls of [resolve], on the root and on the
    joined path, return what they return where no component is a symbolic
    link, the request is not rejected and the result is the components of the
    resolved root followed by those of the path. *)
Theorem normalize_root_and_rel_plain_descendant env cwd roots root_index r rel_path :
  roots_absolute roots = true ->
  Py.index roots root_index = Some r ->
  Py.startswith rel_path "/" = false ->
  Forall (fun x => x <> ".."%string) (parts (parse_path rel_path)) ->
  resolve env (parse_path r) = resolve_lexical cwd (parse_path r) ->
  resolve env (joinpath (parse_path r) rel_path)
  = resolve_lexical cwd (joinpath (parse_path r) rel_path) ->
  normalize_root_and_rel env roots root_index rel_path
  = Ok (mkPath (anchor (resolve env (parse_path r)))
          (parts (resolve env (parse_path r)) ++ parts (parse_path rel_path))).
Proof.
  intros Hroots Hr Hrel Hplain Hres_root Hres_cand.
  pose proof (roots_absolute_index roots root_index r Hroots Hr) as Habs.
  pose proof (path_anchor_absolute r Habs) as Hanchor.
  assert (Py.falsy (anchor (parse_path r)) = false) as Hfalsy.
  { cbn [parse_path anchor]. destruct (path_anchor r); [congruence | reflexivity]. }
  assert (resolve env (parse_path r)
          = mkPath "/" (collapse [] (parts (parse_path r)))) as Hroot.
  { rewrite Hres_root. unfold resolve_lexical. rewrite Hfalsy. reflexivity. }
  assert (resolve env (joinpath (parse_path r) rel_path)
          = mkPath (anchor (resolve env (parse_path r)))
              (parts (resolve env (parse_path r)) ++ parts (parse_path rel_path))) as Hcand.
  { rewrite Hroot, Hres_cand. unfold joinpath. rewrite Hrel. unfold resolve_lexical.
    cbn [anchor parts]. rewrite Hfalsy.
    rewrite collapse_app_no_dotdot by exact Hplain. reflexivity. }
  rewrite <- Hcand. unfold normalize_root_and_rel. rewrite Hr.
  rewrite is_relative_to_startswith; [reflexivity | |].
  - rewrite Hroot. cbn [anchor]. discriminate.
  - rewrite Hcand. unfold is_relative_to. cbn [anchor parts].
    rewrite String.eqb_refl, parts_prefix_app. reflexivity.
Qed.

(** A root written with two leading slashes resolves to a path with one. *)
Example resolve_lexical_double_slash :
  path_str (parse_path "//srv/media") = "//srv/media"%string
  /\ path_str (resolve_lexical (mkPath "/" []) (parse_path "//srv/media"))
     = "/srv/media"%string.
Proof. split; reflexivity. Qed.

Lemma normalize_root_and_rel_plain_descendant_witness :
  normalize_root_and_rel Demo.env Demo.roots 0 "Sub/./a.jpg"
  = Ok (mkPath (anchor (resolve Demo.env (parse_path "/srv/media")))
          (parts (resolve Demo.env (parse_path "/srv/media"))
           ++ parts (parse_path "Sub/./a.jpg"))).
Proof.
  apply (normalize_root_and_rel_plain_descendant Demo.env (mkPath "/" []) Demo.roots 0
           "/srv/media" "Sub/./a.jpg");
    [reflexivity | reflexivity | reflexivity
    | repeat constructor; discriminate | reflexivity | reflexivity].
Defined.

(* ===================================================================== *)
(** * api_roots *)
(* ===================================================================== *)

Lemma enumerate_from_In {A} (l : list A) (k i : Z) (x : A) :
  In (i, x) (enumerate_from k l)
  <-> k <= i /\ nth_error l (Z.to_nat (i - k)) = Some x.
Proof.
  revert k. induction l as [|y l IH]; intros k; cbn [enumerate_from In].
  - split; [tauto|]. intros [_ H]. destruct (Z.to_nat (i - k)); discriminate.
  - rewrite IH. split.
    + intros [[= <- <-] | [Hk Hn]].
      * split; [lia|]. replace (Z.to_nat (k - k)) with 0%nat by lia. reflexivity.
      * split; [lia|].
        replace (Z.to_nat (i - k)) with (S (Z.to_nat (i - (k + 1)))) by lia.
        exact Hn.
    + intros [Hk Hn]. destruct (Z.eq_dec i k) as [-> | Hne].
      * left. replace (Z.to_nat (k - k)) with 0%nat in Hn by lia.
        cbn in Hn. congruence.
      * right. split; [lia|].
        replace (Z.to_nat (i - k)) with (S (Z.to_nat (i - (k + 1)))) in Hn by lia.
        exact Hn.
Qed.

Lemma enumerate_from_snd {A} (l : list A) k : List.map snd (enumerate_from k l) = l.
Proof.
  revert k. induction l as [|y l IH]; intros k; cbn; [reflexivity|].
  rewrite IH. reflexivity.
Qed.

(** X10: [api_roots] lists the roots in order, each with the index under which
    [ROOT_DIRS[index]] gives it back, and every index it lists is accepted by
    [normalize_root_and_rel], where the empty path is the root itself. *)
Theorem api_roots_indices (roots : list string) :
  List.map snd (api_roots roots) = roots
  /\ (forall i p, In (i, p) (api_roots roots) <-> 0 <= i /\ Py.index roots i = Some p)
  /\ (forall env i p, In (i, p) (api_roots roots) ->
        normalize_root_and_rel env roots i "" = Ok (resolve env (parse_path p))).
Proof.
  assert (forall i p, In (i, p) (api_roots roots) <-> 0 <= i /\ Py.index roots i = Some p)
    as Hin.
  { intros i p. unfold api_roots. rewrite enumerate_from_In, Z.sub_0_r.
    unfold Py.index.
    split; intros [Hi Hn]; (split; [exact Hi|]).
    - destruct (i <? 0) eqn:Hneg; [lia|].
      assert (Z.to_nat i < length roots)%nat
        by (apply nth_error_Some; congruence).
      destruct ((0 <=? i) && (i <? Z.of_nat (length roots))) eqn:Hr; [exact Hn|].
      apply andb_false_iff in Hr as [Hr | Hr]; lia.
    - destruct (i <? 0) eqn:Hneg; [lia|].
      destruct ((0 <=? i) && (i <? Z.of_nat (length roots))); [exact Hn | discriminate]. }
  split; [apply enumerate_from_snd|]. split; [exact Hin|].
  intros env i p H. apply normalize_root_and_rel_root_itself. apply Hin. exact H.
Qed.


(* ===================================================================== *)
(** * iter_file_range and media beyond the in-bounds range *)
(* ===================================================================== *)

(** X11: for every start inside the file or at its end, and every end, given
    or not, the chunks are the bytes of the file from [start] to [end], to
    the last byte when [end] is absent or past it, and nothing when [end] is
    before [start] or [start] is the end of the file. *)
Theorem iter_file_range_clamped_span (env : Env) (path : Path)
    (start : Z) (end_ : option Z) (chunk_size : Z) :
  st_size env path = Z.of_nat (length (file_bytes env path)) ->
  0 <= start <= st_size env path -> 0 < chunk_size ->
  exists chunks,
    iter_file_range env path start end_ chunk_size = Some chunks
    /\ concat chunks
       = take (Z.to_nat (match end_ with
                         | None => st_size env path - 1
                         | Some e => Z.min e (st_size env path - 1)
                         end - start + 1))
              (drop (Z.to_nat start) (file_bytes env path))
    /\ Forall (fun c => 0 < Z.of_nat (length c) <= chunk_size) chunks
    /\ (start = st_size env path -> chunks = [])
    /\ (forall e, end_ = Some e -> e < start -> chunks = []).
Proof.
  intros Hsize Hstart Hcs. unfold iter_file_range, iter_file_range_on.
  destruct (start <? 0) eqn:Hneg; [lia|].
  eexists. split; [reflexivity|].
  split; [|split; [apply read_loop_chunks_bounded; exact Hcs|]].
  - rewrite read_loop_concat by exact Hcs.
    destruct end_ as [e|]; [|reflexivity].
    destruct (e >=? st_size env path) eqn:Hge; do 2 f_equal; lia.
  - split.
    + intros ->. apply read_loop_nonpos.
      destruct end_ as [e|]; [destruct (e >=? _) eqn:Hge|]; lia.
    + intros e -> He. apply read_loop_nonpos.
      destruct (e >=? _) eqn:Hge; lia.
Qed.


Lemma iter_file_range_clamped_span_witness :
  exists chunks,
    iter_file_range Demo.env Demo.clip_path 990 None 4 = Some chunks
    /\ concat chunks
       = take (Z.to_nat (st_size Demo.env Demo.clip_path - 1 - 990 + 1))
              (drop (Z.to_nat 990) (file_bytes Demo.env Demo.clip_path))
    /\ Forall (fun c => 0 < Z.of_nat (length c) <= 4) chunks
    /\ (990 = st_size Demo.env Demo.clip_path -> chunks = [])
    /\ (forall e, None = Some e -> e < 990 -> chunks = []).
Proof.
  apply (iter_file_range_clamped_span Demo.env Demo.clip_path 990 None 4);
    [reflexivity | vm_compute; split; discriminate | lia].
Defined.

(** The whole file, as [media] asks for it. *)
Lemma iter_file_range_whole env p :
  st_size env p = Z.of_nat (length (file_bytes env p)) ->
  exists chunks,
    iter_file_range env p 0 (Some (st_size env p - 1)) CHUNK_SIZE = Some chunks
    /\ concat chunks = file_bytes env p.
Proof.
  intros Hsize. unfold iter_file_range, iter_file_range_on.
  destruct (st_size env p - 1 >=? st_size env p) eqn:Hge; [lia|].
  cbn [Z.ltb Z.compare]. eexists. split; [reflexivity|].
  rewrite read_loop_concat by reflexivity.
  cbn [Z.to_nat drop]. apply take_ge. lia.
Qed.

(** X12: without a Range header, or with an empty one, an existing regular
    file is answered with status 200, the single header
    [Accept-Ranges: bytes], the guessed media type, and a body that is the
    whole file. *)
Theorem media_whole_file env roots root_index full_path p range_header :
  normalize_root_and_rel env roots root_index full_path = Ok p ->
  path_exists env p = true ->
  is_file env p = true ->
  st_size env p = Z.of_nat (length (file_bytes env p)) ->
  range_header = None \/ range_header = Some ""%string ->
  exists r,
    media env roots root_index full_path range_header = Ok r
    /\ status r = 200
    /\ headers r = [("Accept-Ranges", "bytes")]%string
    /\ media_type r = Some (mime_type_of env p)
    /\ body_bytes (body r) = Some (file_bytes env p).
Proof.
  intros Hp Hex Hfile Hsize Hrh.
  destruct (iter_file_range_whole env p Hsize) as (chunks & Hit & Hcat).
  exists (mkResponse 200 (Some (mime_type_of env p)) [("Accept-Ranges", "bytes")]%string
            (Streaming (iter_file_range env p 0 (Some (st_size env p - 1)) CHUNK_SIZE))).
  split.
  - unfold media. rewrite Hp, Hex, Hfile. cbn [negb orb].
    destruct Hrh as [-> | ->]; reflexivity.
  - cbn [status headers media_type body]. repeat split.
    rewrite Hit. cbn [body_bytes option_map]. rewrite Hcat. reflexivity.
Qed.

(** X13: [media] passes on the 400 errors of [normalize_root_and_rel]; it
    raises 404 exactly when the path resolves to something that does not
    exist or is not a regular file; and it returns a response only for a path
    that resolves to an existing regular file.  The Range header plays no
    part in any of the three. *)
Theorem media_errors env roots root_index full_path range_header :
  (forall e, normalize_root_and_rel env roots root_index full_path = Raise e ->
             media env roots root_index full_path range_header = Raise e)
  /\ (media env roots root_index full_path range_header = Raise NotFound
      <-> exists p, normalize_root_and_rel env roots root_index full_path = Ok p
                    /\ (path_exists env p = false \/ is_file env p = false))
  /\ (forall r, media env roots root_index full_path range_header = Ok r ->
        exists p, normalize_root_and_rel env roots root_index full_path = Ok p
                  /\ path_exists env p = true /\ is_file env p = true).
Proof.
  unfold media.
  destruct (normalize_root_and_rel env roots root_index full_path) as [p|e0] eqn:Hn.
  - split; [discriminate|].
    destruct (path_exists env p) eqn:Hex, (is_file env p) eqn:Hfile; cbn [negb orb].
    2-4: (split; [split; [intros _; exists p; auto | reflexivity] | discriminate]).
    split.
    + split.
      * destruct range_header as [[|c h]|]; try discriminate.
        destruct (parse_range _ _). discriminate.
      * intros (q & [= <-] & [H | H]); congruence.
    + intros r _. exists p. auto.
  - split; [intros e [= <-]; reflexivity|].
    split; [|discriminate].
    split.
    + intros [= ->]. destruct (normalize_root_and_rel_errors _ _ _ _ _ Hn); discriminate.
    + intros (q & Hq & _). discriminate.
Qed.

(** X14: on an empty file every non-empty Range header is answered 416, since
    the parsed start is never below the size 0. *)
Theorem media_range_on_empty_file env roots root_index full_path p h :
  normalize_root_and_rel env roots root_index full_path = Ok p ->
  path_exists env p = true ->
  is_file env p = true ->
  h <> ""%string ->
  st_size env p = 0 ->
  media env roots root_index full_path (Some h) = Ok (mkResponse 416 None [] (Content [])).
Proof.
  intros Hp Hex Hfile Hh Hsize.
  rewrite (media_range _ _ _ _ p) by assumption.
  pose proof (parse_range_start_nonneg h (st_size env p)) as Hnn.
  unfold range_response.
  destruct (fst (parse_range h (st_size env p)) >=? st_size env p) eqn:Hge;
    [reflexivity | lia].
Qed.

(** X15: a Range header without exactly one ['='] is not an error: on a
    non-empty file it is answered 206 with [Content-Range: bytes
    0-(size-1)/size], [Content-Length: size] and the whole file as body. *)
Theorem media_malformed_range_whole_file env roots root_index full_path p h :
  normalize_root_and_rel env roots root_index full_path = Ok p ->
  path_exists env p = true ->
  is_file env p = true ->
  h <> ""%string ->
  length (Py.split "=" h) <> 2%nat ->
  st_size env p = Z.of_nat (length (file_bytes env p)) ->
  0 < st_size env p ->
  exists r,
    media env roots root_index full_path (Some h) = Ok r
    /\ status r = 206
    /\ header r "Content-Range"
       = Some ("bytes 0-" +:+ Py.str_of_int (st_size env p - 1)
                          +:+ "/" +:+ Py.str_of_int (st_size env p))
    /\ header r "Content-Length" = Some (Py.str_of_int (st_size env p))
    /\ body_bytes (body r) = Some (file_bytes env p).
Proof.
  intros Hp Hex Hfile Hh Hshape Hsize Hpos.
  rewrite (media_range _ _ _ _ p) by assumption.
  rewrite parse_range_malformed_shape by exact Hshape. cbn [fst snd].
  destruct (range_response_headers env p (st_size env p) 0 (st_size env p - 1) Hpos)
    as (Hst & Hcr & _ & Hcl & Hbody).
  destruct (iter_file_range_whole env p Hsize) as (chunks & Hit & Hcat).
  eexists. split; [reflexivity|].
  split; [exact Hst|]. split; [exact Hcr|].
  split.
  { rewrite Hcl. do 2 f_equal. lia. }
  rewrite Hbody, Hit. cbn [body_bytes option_map]. rewrite Hcat. reflexivity.
Qed.



Lemma media_whole_file_witness :
  exists r,
    media Demo.env Demo.roots 0 "clip.mp4" None = Ok r
    /\ status r = 200
    /\ headers r = [("Accept-Ranges", "bytes")]%string
    /\ media_type r = Some (mime_type_of Demo.env Demo.clip_path)
    /\ body_bytes (body r) = Some (file_bytes Demo.env Demo.clip_path).
Proof.
  apply (media_whole_file Demo.env Demo.roots 0 "clip.mp4" Demo.clip_path None);
    [reflexivity | reflexivity | reflexivity | reflexivity | left; reflexivity].
Defined.

Lemma media_range_on_empty_file_witness :
  st_size Demo.env (mkPath "/" ["srv"; "media"; "empty.bin"]%string) = 0
  /\ media Demo.env Demo.roots 0 "empty.bin" (Some "bytes=0-99"%string)
     = Ok (mkResponse 416 None [] (Content [])).
Proof.
  split; [reflexivity|].
  apply (media_range_on_empty_file Demo.env Demo.roots 0 "empty.bin"
           (mkPath "/" ["srv"; "media"; "empty.bin"]%string) "bytes=0-99");
    [reflexivity | reflexivity | reflexivity | discriminate | reflexivity].
Defined.

Lemma media_malformed_range_whole_file_witness :
  exists r,
    media Demo.env Demo.roots 0 "clip.mp4" (Some "all of it"%string) = Ok r
    /\ status r = 206
    /\ header r "Content-Range"
       = Some ("bytes 0-" +:+ Py.str_of_int (st_size Demo.env Demo.clip_path - 1)
                          +:+ "/" +:+ Py.str_of_int (st_size Demo.env Demo.clip_path))
    /\ header r "Content-Length" = Some (Py.str_of_int (st_size Demo.env Demo.clip_path))
    /\ body_bytes (body r) = Some (file_bytes Demo.env Demo.clip_path).
Proof.
  apply (media_malformed_range_whole_file Demo.env Demo.roots 0 "clip.mp4"
           Demo.clip_path "all of it");
    [reflexivity | reflexivity | reflexivity | discriminate
    | vm_compute; discriminate | reflexivity | reflexivity].
Defined.


(** A range inside the file: [bytes=10-19]. *)
Lemma media_range_in_bounds_witness :
  exists r bytes,
    media Demo.env Demo.roots 0 "clip.mp4" (Some "bytes=10-19"%string) = Ok r
    /\ status r = 206
    /\ header r "Content-Range"
       = Some ("bytes " +:+ Py.str_of_int 10 +:+ "-" +:+ Py.str_of_int 19
                        +:+ "/" +:+ Py.str_of_int (st_size Demo.env Demo.clip_path))
    /\ header r "Content-Length" = Some (Py.str_of_int (19 - 10 + 1))
    /\ body_bytes (body r) = Some bytes
    /\ Z.of_nat (length bytes) = 19 - 10 + 1.
Proof.
  apply (media_range_in_bounds Demo.env Demo.roots 0 "clip.mp4" Demo.clip_path
           "bytes=10-19" 10 19);
    [reflexivity | reflexivity | reflexivity | discriminate | reflexivity
    | reflexivity | lia | reflexivity].
Defined.

(** A range that ends past the file: [bytes=900-4999]. *)
Lemma media_range_overshoot_witness :
  exists r bytes,
    media Demo.env Demo.roots 0 "clip.mp4" (Some "bytes=900-4999"%string) = Ok r
    /\ status r = 206
    /\ header r "Content-Range"
       = Some ("bytes " +:+ Py.str_of_int 900 +:+ "-" +:+ Py.str_of_int 4999
                        +:+ "/" +:+ Py.str_of_int (st_size Demo.env Demo.clip_path))
    /\ header r "Content-Length" = Some (Py.str_of_int (4999 - 900 + 1))
    /\ body_bytes (body r) = Some bytes
    /\ Z.of_nat (length bytes) = st_size Demo.env Demo.clip_path - 900
    /\ Z.of_nat (length bytes) < 4999 - 900 + 1.
Proof.
  apply (media_range_overshoot Demo.env Demo.roots 0 "clip.mp4" Demo.clip_path
           "bytes=900-4999" 900 4999);
    [reflexivity | reflexivity | reflexivity | discriminate | reflexivity
    | reflexivity | reflexivity | vm_compute; discriminate
    | reflexivity | reflexivity].
Defined.

(* ===================================================================== *)
(** * list_dir and api_list *)
(* ===================================================================== *)

Section ListDirFacts.
Variable lower : string -> string.
Variable denv : DirEnv.

Lemma collect_entries_names base rel q names :
  List.map name (collect_entries lower denv base rel q names)
  = List.filter (fun nm => negb (skipped lower q nm)) names.
Proof.
  induction names as [|nm names IH]; [reflexivity|].
  cbn [collect_entries List.filter].
  destruct (skipped lower q nm); cbn [negb List.map name]; rewrite IH; reflexivity.
Qed.

Lemma collect_entries_filter base rel q names :
  collect_entries lower denv base rel q names
  = List.filter (fun e => negb (skipped lower q (name e)))
      (collect_entries lower denv base rel None names).
Proof.
  induction names as [|nm names IH]; [reflexivity|].
  cbn [collect_entries skipped List.filter name].
  destruct (skipped lower q nm); cbn [negb]; rewrite IH; reflexivity.
Qed.

Lemma skipped_no_query q nm :
  q = None \/ q = Some ""%string -> skipped lower q nm = false.
Proof. intros [-> | ->]; reflexivity. Qed.

Lemma lstrip_slash_no_leading s : Py.startswith (lstrip_slash s) "/" = false.
Proof.
  induction s as [|c s IH]; [reflexivity|].
  cbn [lstrip_slash]. destruct (Ascii.eqb c "/") eqn:Hc; [exact IH|].
  apply Ascii.eqb_neq in Hc. unfold Py.startswith.
  change (String.prefix "/" (String c s))
    with (if ascii_dec "/" c then String.prefix "" s else false).
  destruct (ascii_dec "/" c); [congruence | reflexivity].
Qed.

Lemma collect_entries_rel_path base rel q names :
  Forall (fun e => Py.startswith (rel_path e) "/" = false
                   /\ rel_path e = lstrip_slash (os_path_join rel (name e))
                   /\ In (name e) names
                   /\ is_dir e = is_directory denv (child base (name e))
                   /\ size e = st_size (fs denv) (child base (name e))
                   /\ mtime e = st_mtime denv (child base (name e)))
         (collect_entries lower denv base rel q names).
Proof.
  induction names as [|nm names IH]; [constructor|].
  cbn [collect_entries].
  assert (Forall (fun e => Py.startswith (rel_path e) "/" = false
                   /\ rel_path e = lstrip_slash (os_path_join rel (name e))
                   /\ In (name e) (nm :: names)
                   /\ is_dir e = is_directory denv (child base (name e))
                   /\ size e = st_size (fs denv) (child base (name e))
                   /\ mtime e = st_mtime denv (child base (name e)))
            (collect_entries lower denv base rel q names)) as IH'.
  { eapply List.Forall_impl; [|exact IH]. cbn. intros e H. intuition. }
  destruct (skipped lower q nm); [exact IH'|].
  constructor; [|exact IH'].
  cbn. split; [apply lstrip_slash_no_leading|]. intuition.
Qed.
End ListDirFacts.
(** What [list_dir] returns once the directory is resolved. *)
Lemma list_dir_resolved lower denv roots root_index rel q base :
  normalize_root_and_rel (fs denv) roots root_index rel = Ok base ->
  list_dir lower denv roots root_index rel q
  = if negb (path_exists (fs denv) base) then Raise ListNotFound
    else if is_file (fs denv) base then Raise NotADirectory
    else Ok (collect_entries lower denv base rel q (sorted_names denv base)).
Proof. intros Hn. unfold list_dir. rewrite Hn. reflexivity. Qed.

Lemma list_dir_Ok lower denv roots root_index rel q entries :
  list_dir lower denv roots root_index rel q = Ok entries ->
  exists base,
    normalize_root_and_rel (fs denv) roots root_index rel = Ok base
    /\ path_exists (fs denv) base = true
    /\ is_file (fs denv) base = false
    /\ entries = collect_entries lower denv base rel q (sorted_names denv base).
Proof.
  unfold list_dir.
  destruct (normalize_root_and_rel _ _ _ _) as [base|e]; [|discriminate].
  destruct (path_exists (fs denv) base) eqn:Hex; [|discriminate].
  destruct (is_file (fs denv) base) eqn:Hfile; [discriminate|].
  cbn [negb]. intros [= <-]. exists base. repeat split; assumption.
Qed.

(** X17: [list_dir] passes on the 400 errors of [normalize_root_and_rel]; it
    raises 404 "not found" exactly when the path resolves to something that
    does not exist, and 400 "not a directory" exactly when it resolves to
    something that exists and is a regular file; the search string plays no
    part in any of them. *)
Theorem list_dir_errors lower denv roots root_index rel q :
  (forall e, normalize_root_and_rel (fs denv) roots root_index rel = Raise e ->
        list_dir lower denv roots root_index rel q = Raise e)
  /\ (list_dir lower denv roots root_index rel q = Raise ListNotFound
      <-> exists base,
            normalize_root_and_rel (fs denv) roots root_index rel = Ok base
            /\ path_exists (fs denv) base = false)
  /\ (list_dir lower denv roots root_index rel q = Raise NotADirectory
      <-> exists base,
            normalize_root_and_rel (fs denv) roots root_index rel = Ok base
            /\ path_exists (fs denv) base = true
            /\ is_file (fs denv) base = true).
Proof.
  unfold list_dir.
  destruct (normalize_root_and_rel (fs denv) roots root_index rel) as [base|e0] eqn:Hn.
  - split; [discriminate|].
    destruct (path_exists (fs denv) base) eqn:Hex; cbn [negb].
    + destruct (is_file (fs denv) base) eqn:Hfile.
      * split; [split; [discriminate | intros (b & [= <-] & H); congruence]|].
        split; [intros _; exists base; auto | reflexivity].
      * split; [split; [discriminate | intros (b & [= <-] & H); congruence]|].
        split; [discriminate | intros (b & [= <-] & _ & H); congruence].
    + split; [split; [intros _; exists base; auto | reflexivity]|].
      split; [discriminate | intros (b & [= <-] & H & _); congruence].
  - split; [intros e [= <-]; reflexivity|].
    split.
    { split; [|intros (b & H & _); discriminate].
      intros [= ->]. destruct (normalize_root_and_rel_errors _ _ _ _ _ Hn); discriminate. }
    split; [|intros (b & H & _); discriminate].
    intros [= ->]. destruct (normalize_root_and_rel_errors _ _ _ _ _ Hn); discriminate.
Qed.

(** X18: without a search string (or with an empty one) a successful listing
    has one entry for each name in the directory, in ascending order of the
    names as they are (case matters here). *)
Theorem list_dir_lists_every_child lower denv roots root_index rel q entries :
  list_dir lower denv roots root_index rel q = Ok entries ->
  q = None \/ q = Some ""%string ->
  exists base,
    normalize_root_and_rel (fs denv) roots root_index rel = Ok base
    /\ Permutation (listdir denv base) (List.map name entries)
    /\ StronglySorted (fun a b => String.leb a b = true) (List.map name entries).
Proof.
  intros Hl Hq. destruct (list_dir_Ok _ _ _ _ _ _ _ Hl) as (base & Hn & _ & _ & ->).
  exists base. split; [exact Hn|].
  rewrite collect_entries_names.
  assert (List.filter (fun nm => negb (skipped lower q nm)) (sorted_names denv base)
          = sorted_names denv base) as ->.
  { apply forallb_filter_id, forallb_forall. intros nm _.
    rewrite skipped_no_query by exact Hq. reflexivity. }
  split.
  - apply (list_sort_Permutation (fun nm : string => nm) String.leb).
  - apply (list_sort_StronglySorted (fun nm : string => nm) String.leb).
    + apply string_leb_false.
    + apply string_leb_trans.
Qed.

(** X19: a search string keeps, in their order, exactly the entries of the
    full listing whose lower-cased name contains the lower-cased string; the
    empty string keeps them all. *)
Theorem list_dir_search lower denv roots root_index rel q all :
  list_dir lower denv roots root_index rel None = Ok all ->
  list_dir lower denv roots root_index rel (Some q)
  = Ok (List.filter (fun e => Py.falsy q || contains (lower q) (lower (name e))) all).
Proof.
  intros Hl. destruct (list_dir_Ok _ _ _ _ _ _ _ Hl) as (base & Hn & Hex & Hfile & ->).
  rewrite (list_dir_resolved _ _ _ _ _ _ base Hn), Hex, Hfile. cbn [negb].
  rewrite collect_entries_filter. f_equal.
  apply filter_ext. intros e.
  destruct q as [|c s]; cbn [skipped Py.falsy negb orb]; [reflexivity|].
  apply negb_involutive.
Qed.

(** X20: in a successful listing no [rel_path] starts with ['/'], every name
    is a name of the directory, and the flags, sizes and times are those of
    the child of that name. *)
Theorem list_dir_entries_well_formed lower denv roots root_index rel q entries :
  list_dir lower denv roots root_index rel q = Ok entries ->
  exists base,
    normalize_root_and_rel (fs denv) roots root_index rel = Ok base
    /\ Forall (fun e => Py.startswith (rel_path e) "/" = false
                        /\ In (name e) (listdir denv base)
                        /\ is_dir e = is_directory denv (child base (name e))
                        /\ size e = st_size (fs denv) (child base (name e))
                        /\ mtime e = st_mtime denv (child base (name e)))
              entries.
Proof.
  intros Hl. destruct (list_dir_Ok _ _ _ _ _ _ _ Hl) as (base & Hn & _ & _ & ->).
  exists base. split; [exact Hn|].
  eapply List.Forall_impl; [|apply collect_entries_rel_path].
  cbn. intros e (H1 & _ & H3 & H4 & H5 & H6).
  repeat split; try assumption.
  eapply Permutation_in; [|exact H3].
  symmetry. apply (list_sort_Permutation (fun nm : string => nm) String.leb).
Qed.

(** Sorted lists of names with the same elements are the same list. *)
Lemma sorted_names_unique (l1 l2 : list string) :
  Sorted (fun a b => String.leb a b = true) l1 ->
  Sorted (fun a b => String.leb a b = true) l2 ->
  Permutation l1 l2 -> l1 = l2.
Proof.
  revert l2. induction l1 as [|a l1 IH]; intros l2 Hs1 Hs2 Hp.
  - apply Permutation_nil in Hp. congruence.
  - destruct l2 as [|b l2]; [apply Permutation_sym, Permutation_nil in Hp; discriminate|].
    assert (a = b) as ->.
    { apply String.leb_antisym.
      - apply (Sorted_head_least (fun nm : string => nm) String.leb
                 string_leb_trans string_leb_refl a l1 b Hs1).
        eapply Permutation_in; [symmetry; exact Hp | left; reflexivity].
      - apply (Sorted_head_least (fun nm : string => nm) String.leb
                 string_leb_trans string_leb_refl b l2 a Hs2).
        eapply Permutation_in; [exact Hp | left; reflexivity]. }
    f_equal. apply IH.
    + apply Sorted_inv in Hs1. tauto.
    + apply Sorted_inv in Hs2. tauto.
    + eapply Permutation_cons_inv. exact Hp.
Qed.

(** X21: the listing does not depend on the order in which the file system
    enumerates the directory. *)
Theorem list_dir_enumeration_order lower denv (names' : Path -> list string)
    roots root_index rel q :
  (forall p, Permutation (listdir denv p) (names' p)) ->
  list_dir lower (mkDirEnv (fs denv) names' (is_directory denv) (st_mtime denv))
    roots root_index rel q
  = list_dir lower denv roots root_index rel q.
Proof.
  intros Hp. unfold list_dir. cbn [fs].
  destruct (normalize_root_and_rel (fs denv) roots root_index rel) as [base|e];
    [|reflexivity].
  destruct (path_exists (fs denv) base); [|reflexivity].
  destruct (is_file (fs denv) base); [reflexivity|]. cbn [negb].
  assert (sorted_names (mkDirEnv (fs denv) names' (is_directory denv) (st_mtime denv)) base
          = sorted_names denv base) as ->.
  { unfold sorted_names. cbn [listdir].
    apply sorted_names_unique.
    - apply (list_sort_Sorted (fun nm : string => nm) String.leb string_leb_false).
    - apply (list_sort_Sorted (fun nm : string => nm) String.leb string_leb_false).
    - rewrite <- !(list_sort_Permutation (fun nm : string => nm) String.leb).
      symmetry. apply Hp. }
  reflexivity.
Qed.

(** X22: [api_list] fails exactly as [list_dir] does, and when it succeeds
    its items are the entries of [list_dir] rearranged: whatever the sort
    parameter, sorting neither drops nor adds an entry. *)
Theorem api_list_keeps_entries lower denv roots root_index path_param q sort_param :
  match list_dir lower denv roots root_index
          (match path_param with Some p => p | None => EmptyString end) q with
  | Raise e =>
      api_list lower denv roots root_index path_param q sort_param = Raise e
  | Ok items =>
      exists out,
        api_list lower denv roots root_index path_param q sort_param = Ok out
        /\ Permutation items out
  end.
Proof.
  unfold api_list. destruct (list_dir _ _ _ _ _ _) as [items|e]; [|reflexivity].
  eexists. split; [reflexivity|].
  unfold api_list_order, sort_items.
  destruct (String.eqb _ "name"); [apply list_sort_Permutation|].
  destruct (String.eqb _ "date"); [apply list_sort_Permutation|].
  destruct (String.eqb _ "size"); [apply list_sort_Permutation|].
  reflexivity.
Qed.

(** X23: a sort parameter other than [name], [date] and [size] is no error:
    the answer is the listing in the order [list_dir] built it. *)
Theorem api_list_unknown_sort lower denv roots root_index path_param q sort :
  sort <> "name"%string -> sort <> "date"%string -> sort <> "size"%string ->
  api_list lower denv roots root_index path_param q (Some sort)
  = list_dir lower denv roots root_index
      (match path_param with Some p => p | None => EmptyString end) q.
Proof.
  intros H1 H2 H3. unfold api_list.
  destruct (list_dir _ _ _ _ _ _) as [items|e]; [|reflexivity].
  unfold api_list_order. rewrite sort_items_other_key by assumption. reflexivity.
Qed.

Lemma list_dir_lists_every_child_witness :
  exists base,
    normalize_root_and_rel (fs DemoDir.denv) Demo.roots 0 "" = Ok base
    /\ Permutation (listdir DemoDir.denv base)
         (List.map name
            (collect_entries ascii_lower DemoDir.denv (mkPath "/" ["srv"; "media"]%string)
               "" None (sorted_names DemoDir.denv (mkPath "/" ["srv"; "media"]%string))))
    /\ StronglySorted (fun a b => String.leb a b = true)
         (List.map name
            (collect_entries ascii_lower DemoDir.denv (mkPath "/" ["srv"; "media"]%string)
               "" None (sorted_names DemoDir.denv (mkPath "/" ["srv"; "media"]%string)))).
Proof.
  apply (list_dir_lists_every_child ascii_lower DemoDir.denv Demo.roots 0 "" None);
    [reflexivity | left; reflexivity].
Defined.

Lemma list_dir_search_witness :
  list_dir ascii_lower DemoDir.denv Demo.roots 0 "" (Some "JPG"%string)
  = Ok (List.filter
          (fun e => Py.falsy "JPG" || contains (ascii_lower "JPG") (ascii_lower (name e)))
          (collect_entries ascii_lower DemoDir.denv (mkPath "/" ["srv"; "media"]%string)
             "" None (sorted_names DemoDir.denv (mkPath "/" ["srv"; "media"]%string)))).
Proof.
  apply (list_dir_search ascii_lower DemoDir.denv Demo.roots 0 "" "JPG").
  reflexivity.
Defined.

Example list_dir_search_names :
  option_map (List.map name)
    (match list_dir ascii_lower DemoDir.denv Demo.roots 0 "" (Some "JPG"%string) with
     | Ok l => Some l
     | Raise _ => None
     end)
  = Some ["broken.jpg"; "photo.jpg"]%string.
Proof. vm_compute. reflexivity. Qed.

Lemma list_dir_entries_well_formed_witness :
  exists base,
    normalize_root_and_rel (fs DemoDir.denv) Demo.roots 0 "" = Ok base
    /\ Forall (fun e => Py.startswith (rel_path e) "/" = false
                        /\ In (name e) (listdir DemoDir.denv base)
                        /\ is_dir e = is_directory DemoDir.denv (child base (name e))
                        /\ size e = st_size (fs DemoDir.denv) (child base (name e))
                        /\ mtime e = st_mtime DemoDir.denv (child base (name e)))
         (collect_entries ascii_lower DemoDir.denv (mkPath "/" ["srv"; "media"]%string)
            "" None (sorted_names DemoDir.denv (mkPath "/" ["srv"; "media"]%string))).
Proof.
  apply (list_dir_entries_well_formed ascii_lower DemoDir.denv Demo.roots 0 "" None).
  reflexivity.
Defined.

Lemma list_dir_enumeration_order_witness :
  list_dir ascii_lower
    (mkDirEnv (fs DemoDir.denv) (fun p => rev (listdir DemoDir.denv p))
       (is_directory DemoDir.denv) (st_mtime DemoDir.denv))
    Demo.roots 0 "" None
  = list_dir ascii_lower DemoDir.denv Demo.roots 0 "" None.
Proof.
  apply (list_dir_enumeration_order ascii_lower DemoDir.denv
           (fun p => rev (listdir DemoDir.denv p)) Demo.roots 0 "" None).
  intros p. apply Permutation_rev.
Defined.

Lemma api_list_unknown_sort_witness :
  api_list ascii_lower DemoDir.denv Demo.roots 0 None None (Some "type"%string)
  = list_dir ascii_lower DemoDir.denv Demo.roots 0 "" None.
Proof.
  apply (api_list_unknown_sort ascii_lower DemoDir.denv Demo.roots 0 None None "type");
    discriminate.
Defined.

(* ===================================================================== *)
(** * api_thumb: the cache and the children *)
(* ===================================================================== *)

Lemma app_sep_inj sep a b p q :
  ~ In sep (list_ascii_of_string a) ->
  ~ In sep (list_ascii_of_string b) ->
  a +:+ String sep p = b +:+ String sep q -> a = b /\ p = q.
Proof.
  revert b. induction a as [|x a IH]; intros [|y b]; simpl; intros Ha Hb H.
  - injection H as ->. auto.
  - injection H as <- _. tauto.
  - injection H as -> _. tauto.
  - injection H as -> H. destruct (IH b ltac:(tauto) ltac:(tauto) H) as [-> ->]. auto.
Qed.

Lemma str_of_int_no_colon n : ~ In ":"%char (list_ascii_of_string (Py.str_of_int n)).
Proof.
  destruct n as [|p|p].
  - apply str_of_int_no; [lia | reflexivity].
  - apply str_of_int_no; [lia | reflexivity].
  - unfold Py.str_of_int. cbn [Z.to_int NilZero.string_of_int list_ascii_of_string In].
    intros [H | H]; [discriminate|].
    unfold NilZero.string_of_uint in H.
    destruct (Pos.to_uint p) eqn:Hd; rewrite <- ?Hd in H;
      try (apply uint_chars_digits in H; apply H; reflexivity).
    cbn in H. destruct H as [H | []]. discriminate.
Qed.

(** X24: two requests share a cache key only if they have the same root index
    and the same path. *)
Theorem cache_key_injective (i j : Z) (p q : string) :
  cache_key i p = cache_key j q -> i = j /\ p = q.
Proof.
  unfold cache_key. intros H.
  change (Py.str_of_int i +:+ ":" +:+ p) with (Py.str_of_int i +:+ String ":" p) in H.
  change (Py.str_of_int j +:+ ":" +:+ q) with (Py.str_of_int j +:+ String ":" q) in H.
  apply app_sep_inj in H as [Hs ->]; try apply str_of_int_no_colon.
  split; [|reflexivity].
  apply str_of_int_inj. exact Hs.
Qed.

(** X25: a call never removes or changes an entry of the cache, touches no
    key but its own, and leaves the whole state as it was when it raises. *)
Theorem api_thumb_cache_only_grows env roots root_index path st :
  (forall k d, thumb_cache st !! k = Some d ->
        thumb_cache (snd (api_thumb env roots root_index path st)) !! k = Some d)
  /\ (forall k, k <> cache_key root_index path ->
        thumb_cache (snd (api_thumb env roots root_index path st)) !! k
        = thumb_cache st !! k)
  /\ (forall e, fst (api_thumb env roots root_index path st) = Raise e ->
        snd (api_thumb env roots root_index path st) = st).
Proof.
  destruct (thumb_cache st !! cache_key root_index path) as [data|] eqn:Hc.
  { rewrite (api_thumb_hit env roots root_index path st data Hc). cbn [fst snd].
    repeat split; auto; discriminate. }
  destruct (normalize_root_and_rel env roots root_index path) as [p|e0] eqn:Hn.
  - destruct (path_exists env p) eqn:Hex.
    + destruct (api_thumb_miss_generates env roots root_index path st p Hc Hn Hex)
        as [evs ->]. cbn [fst snd thumb_cache].
      split; [|split; [|discriminate]].
      * intros k d Hk. rewrite lookup_insert_ne; [exact Hk | congruence].
      * intros k Hk. apply lookup_insert_ne. congruence.
    + rewrite (api_thumb_miss_absent env roots root_index path st p Hc Hn Hex).
      cbn [fst snd]. repeat split; auto.
  - rewrite (api_thumb_miss_rejected env roots root_index path st e0 Hc Hn).
    cbn [fst snd]. repeat split; auto.
Qed.

(** X26: when the placeholder is not empty, a call that misses the cache and
    returns never returns, nor stores, an empty body. *)
Theorem api_thumb_bytes_nonempty env roots root_index path st r :
  placeholder env <> [] ->
  thumb_cache st !! cache_key root_index path = None ->
  fst (api_thumb env roots root_index path st) = Ok r ->
  exists data, r = jpeg_response data /\ data <> []
               /\ thumb_cache (snd (api_thumb env roots root_index path st))
                    !! cache_key root_index path = Some data.
Proof.
  intros Hph Hc Hr.
  destruct (normalize_root_and_rel env roots root_index path) as [p|e0] eqn:Hn.
  - destruct (path_exists env p) eqn:Hex.
    + destruct (api_thumb_miss_generates env roots root_index path st p Hc Hn Hex)
        as [evs Hgen]. rewrite Hgen in *. cbn [fst snd thumb_cache] in *.
      injection Hr as <-. exists (generated_thumb env p).
      split; [reflexivity|]. split; [|apply lookup_insert_eq].
      destruct (generated_thumb_cases env p) as [-> | [H _]]; assumption.
    + rewrite (api_thumb_miss_absent env roots root_index path st p Hc Hn Hex) in Hr.
      discriminate.
  - rewrite (api_thumb_miss_rejected env roots root_index path st e0 Hc Hn) in Hr.
    discriminate.
Qed.

Lemma bind_assoc {A B C} (m : M A) (f : A -> M B) (g : B -> M C) st :
  bind (bind m f) g st = bind m (fun x => bind (f x) g) st.
Proof. unfold bind. destruct (m st) as [[a|e] s]; reflexivity. Qed.

(** X27: one call starts at most one ffmpeg child, and it starts one exactly
    when the key is not cached, the path resolves and exists, and the file is
    not sniffed as an image. *)
Theorem api_thumb_children env roots root_index path st :
  (subprocess_count (trace (snd (api_thumb env roots root_index path st)))
   <= subprocess_count (trace st) + 1)%nat
  /\ (subprocess_count (trace (snd (api_thumb env roots root_index path st)))
      = (subprocess_count (trace st) + 1)%nat
      <-> thumb_cache st !! cache_key root_index path = None
          /\ exists p,
               normalize_root_and_rel env roots root_index path = Ok p
               /\ path_exists env p = true
               /\ is_image env p (if is_file env p
                                  then Some (magic_from_file env (path_str p))
                                  else None) = false).
Proof.
  rewrite api_thumb_unfold.
  destruct (thumb_cache st !! cache_key root_index path) as [data|] eqn:Hc.
  { cbn [snd]. split; [lia|]. split; [lia | intros [? _]; discriminate]. }
  destruct (normalize_root_and_rel env roots root_index path) as [p|e0] eqn:Hn.
  2:{ cbn [snd]. split; [lia|]. split; [lia | intros [_ (q & ? & _)]; discriminate]. }
  destruct (path_exists env p) eqn:Hex; cbn [negb].
  2:{ cbn [snd]. split; [lia|].
      split; [lia | intros [_ (q & [= <-] & ? & _)]; congruence]. }
  assert (exists r st2,
            (let* mime := sniff env p in
             let* data := (if is_image env p mime then image_branch env p
                           else video_branch env p) in
             finish_thumb env (cache_key root_index path) data) st = (r, st2)
            /\ subprocess_count (trace st2)
               = (subprocess_count (trace st)
                  + (if is_image env p (if is_file env p
                                        then Some (magic_from_file env (path_str p))
                                        else None)
                     then 0 else 1))%nat) as (r & st2 & -> & Hcount).
  { destruct (sniff_spec env p st) as (st1 & Hs & Hc1 & Ht1).
    unfold bind at 1. rewrite Hs.
    destruct (is_image env p _) eqn:Himg.
    - destruct (image_steps_spec env (cache_key root_index path) p st1)
        as (st2 & -> & _ & Ht2).
      do 2 eexists. split; [reflexivity | lia].
    - unfold video_branch. rewrite bind_assoc. unfold emit. unfold bind at 1.
      match goal with
      | |- context [bind (frame_branch env ?o) ?k ?s] =>
          destruct (frame_steps_spec env (cache_key root_index path) o s)
            as (st2 & -> & _ & Ht2)
      end.
      do 2 eexists. split; [reflexivity|].
      rewrite Ht2. cbn [trace]. rewrite subprocess_count_app.
      change (subprocess_count [EvSubprocess (path_str p)]) with 1%nat. lia. }
  cbn [snd]. rewrite Hcount.
  destruct (is_image env p _) eqn:Himg.
  - split; [lia|]. split; [lia|]. intros [_ (q & [= <-] & _ & ?)]. congruence.
  - split; [lia|]. split; [|lia]. intros _. split; [reflexivity|]. exists p. auto.
Qed.

Lemma cache_key_injective_witness :
  0 = 0 /\ "a:b"%string = "a:b"%string.
Proof. apply (cache_key_injective 0 0 "a:b" "a:b"). reflexivity. Defined.

Example cache_key_colon : cache_key 1 "2:x" = "1:2:x"%string /\ cache_key 12 "x" = "12:x"%string.
Proof. split; reflexivity. Qed.

Lemma api_thumb_bytes_nonempty_witness :
  exists data,
    jpeg_response (placeholder Demo.env) = jpeg_response data /\ data <> []
    /\ thumb_cache (snd (api_thumb Demo.env Demo.roots 0 "broken.jpg" Demo.empty_state))
         !! cache_key 0 "broken.jpg" = Some data.
Proof.
  apply (api_thumb_bytes_nonempty Demo.env Demo.roots 0 "broken.jpg" Demo.empty_state
           (jpeg_response (placeholder Demo.env)));
    [discriminate | reflexivity | vm_compute; reflexivity].
Defined.
